(** * Font Awesome v5 mapping generator (make-fontawesome5.py)

    A shallow embedding of the pure core of [make-fontawesome5.py]:
    [make_cmdname], [make_map], [make_cmd] and the generation pass of
    [main] (from [icon_list = sorted(icons.keys())] to the four joined
    text blocks of [data]).  The rest of [main] (the check of the output
    path, the input file or the download of [get_icons_yml], the template
    and the output file) is modelled on an explicit world; argument parsing
    and the YAML loader are taken as given.

    Python values are modelled as follows.
    - [str] is [string]; the model covers code points below 128, the
      range of icon names, style tags and hexadecimal code points.
      [str.upper] is then the ASCII upper-casing [str_upper].
    - a [dict] with [str] keys is an association list in insertion order
      whose keys are pairwise distinct ([dict_wf]).
    - an icon record is the record [Icon] with the two fields the program
      reads, ["unicode"] and ["styles"] (a list of [str]).
    - a raised exception is the [Raise] branch of [result]. *)

From Stdlib Require Import Bool Arith NArith Lia List Ascii String.
From Stdlib Require Import Permutation Sorted.
From Stdlib Require DecimalString.
Import ListNotations.

Local Open Scope list_scope.
Local Open Scope string_scope.

(** ** Characters and [str] methods *)

Module Py.

Definition hyphen : ascii := "-"%char.
Definition dquote : ascii := "034"%char.
Definition newline : ascii := "010"%char.

Definition is_lower (c : ascii) : bool :=
  (Ascii.leb "a" c && Ascii.leb c "z")%bool.
Definition is_upper (c : ascii) : bool :=
  (Ascii.leb "A" c && Ascii.leb c "Z")%bool.
Definition is_digit (c : ascii) : bool :=
  (Ascii.leb "0" c && Ascii.leb c "9")%bool.
Definition is_letter (c : ascii) : bool := (is_lower c || is_upper c)%bool.
Definition is_alnum (c : ascii) : bool := (is_letter c || is_digit c)%bool.

(** [c.upper()] for a character below 128. *)
Definition upper_char (c : ascii) : ascii :=
  if is_lower c then ascii_of_nat (nat_of_ascii c - 32) else c.

(** [s.upper()] *)
Fixpoint str_upper (s : string) : string :=
  match s with
  | EmptyString => EmptyString
  | String c s' => String (upper_char c) (str_upper s')
  end.

(** [sep.join(l)] *)
Definition join (sep : string) (l : list string) : string := String.concat sep l.

(** [enumerate(s)] for a string [s] *)
Definition enumerate (s : string) : list (nat * ascii) :=
  let cs := list_ascii_of_string s in
  combine (seq 0 (List.length cs)) cs.

(** Truth value of an optional string: [None] and [""] are false. *)
Definition truthy (v : option string) : bool :=
  match v with
  | None => false
  | Some EmptyString => false
  | Some (String _ _) => true
  end.

(** Exceptions the modelled code can raise. *)
Inductive exn : Type :=
| ValueError (msg : string)
| KeyError (key : string).

Inductive result (A : Type) : Type :=
| Ok (a : A)
| Raise (e : exn).
Arguments Ok {A} a.
Arguments Raise {A} e.

Definition bind {A B : Type} (m : result A) (k : A -> result B) : result B :=
  match m with
  | Ok a => k a
  | Raise e => Raise e
  end.

(** A list comprehension whose body may raise. *)
Fixpoint comprehension {A B : Type} (f : A -> result B) (l : list A)
  : result (list B) :=
  match l with
  | [] => Ok []
  | x :: l' =>
      bind (f x) (fun y =>
      bind (comprehension f l') (fun ys => Ok (y :: ys)))
  end.

(** Dictionaries with [str] keys, in insertion order. *)
Definition dict (V : Type) : Type := list (string * V).

Definition keys {V : Type} (d : dict V) : list string := map fst d.

Fixpoint lookup {V : Type} (d : dict V) (k : string) : option V :=
  match d with
  | [] => None
  | (k', v) :: d' => if String.eqb k k' then Some v else lookup d' k
  end.

(** [d[k]] *)
Definition getitem {V : Type} (d : dict V) (k : string) : result V :=
  match lookup d k with
  | Some v => Ok v
  | None => Raise (KeyError k)
  end.

(** The keys of a dictionary are pairwise distinct. *)
Definition dict_wf {V : Type} (d : dict V) : Prop := NoDup (keys d).

Fixpoint distinctb (l : list string) : bool :=
  match l with
  | [] => true
  | x :: l' => (negb (existsb (String.eqb x) l') && distinctb l')%bool
  end.

(** [x in l] for a list of [str]; [None in l] is false there. *)
Definition contains (x : option string) (l : list string) : bool :=
  match x with
  | Some s => existsb (String.eqb s) l
  | None => false
  end.

(** [sorted(l)] for a list of [str]: ascending in the order of [str],
    which compares code point by code point. *)
Fixpoint insert (x : string) (l : list string) : list string :=
  match l with
  | [] => [x]
  | y :: l' => if String.leb x y then x :: y :: l' else y :: insert x l'
  end.

Definition sorted (l : list string) : list string := fold_right insert [] l.

End Py.

Import Py.

Notation "x <- m ;; k" := (bind m (fun x => k))
  (at level 61, m at next level, right associativity).

(** ** The program *)

(** [FONTS] *)
Definition FONTS : dict string :=
  [ ("regular", "FontAwesomeRegular");
    ("solid", "FontAwesomeSolid");
    ("brands", "FontAwesomeBrands") ].

(** One value of the loaded [icons] mapping. *)
Record Icon : Type := mkIcon {
  unicode : string;
  styles : list string
}.

(** The body of the loop of [make_cmdname], on the pair
    ([cmdname], [upper]). *)
Definition make_cmdname_step (st : list string * bool) (ic : nat * ascii)
  : list string * bool :=
  let '(cmdname, upper) := st in
  let '(i, c) := ic in
  if Ascii.eqb c hyphen then (cmdname, true)
  else
    let upper := if Nat.eqb i 0 then true else upper in
    let cmdname :=
      if upper then (cmdname ++ [str_upper (String c EmptyString)])%list
      else (cmdname ++ [String c EmptyString])%list in
    (cmdname, false).

Definition make_cmdname (name : string) : string :=
  let '(cmdname, _) :=
    fold_left make_cmdname_step (enumerate name) ([], false) in
  join "" cmdname.

(** [make_map] *)
Definition make_map (name symbol : string) : string :=
  "\expandafter\def\csname faicon@" ++ name ++ "\endcsname{\symbol{"
    ++ String dquote (str_upper symbol ++ "}}").

(** [make_cmd]; the result [None] is Python's [None]. *)
Definition make_cmd (name : string) (icon : Icon) (style : string)
  : result (option string) :=
  let cmdname := make_cmdname name in
  fallback <-
    (if String.eqb style "solid" then Ok (Some "regular")
     else if String.eqb style "regular" then Ok (Some "solid")
     else if String.eqb style "brands" then Ok None
     else Raise (ValueError ("Invalid style: " ++ style))) ;;
  let format (font : string) : string :=
    "\def\fa" ++ cmdname ++ "{{\" ++ font ++ "\csname faicon@" ++ name
      ++ "\endcsname}}" in
  if contains (Some style) (styles icon) then
    font <- getitem FONTS style ;;
    Ok (Some (format font))
  else if contains fallback (styles icon) then
    font <- match fallback with
            | Some fb => getitem FONTS fb
            | None => Raise (KeyError "None")
            end ;;
    Ok (Some (format font))
  else Ok None.

(** The four lists [main] builds from the loaded [icons]. *)
Record Generated : Type := mkGenerated {
  mappings : list string;
  cmds_regular : list string;
  cmds_solid : list string;
  cmds_brands : list string
}.

(** [[cmd for cmd in cmds if cmd]] *)
Definition exclude_none (l : list (option string)) : list string :=
  flat_map (fun cmd => if truthy cmd
                       then match cmd with Some s => [s] | None => [] end
                       else []) l.

(** [main] from [icon_list = sorted(icons.keys())] to the filtered command
    lists. *)
Definition main_lists (icons : dict Icon) : result Generated :=
  let icon_list := sorted (keys icons) in
  mappings <- comprehension (fun name =>
      icon <- getitem icons name ;; Ok (make_map name (unicode icon)))
    icon_list ;;
  cmds_regular <- comprehension (fun name =>
      icon <- getitem icons name ;; make_cmd name icon "regular")
    icon_list ;;
  cmds_solid <- comprehension (fun name =>
      icon <- getitem icons name ;; make_cmd name icon "solid")
    icon_list ;;
  cmds_brands <- comprehension (fun name =>
      icon <- getitem icons name ;; make_cmd name icon "brands")
    icon_list ;;
  Ok {| mappings := mappings;
        cmds_regular := exclude_none cmds_regular;
        cmds_solid := exclude_none cmds_solid;
        cmds_brands := exclude_none cmds_brands |}.

(** The four entries of [data] that hold generated text. *)
Record Data : Type := mkData {
  data_mappings : string;
  data_cmds_regular : string;
  data_cmds_solid : string;
  data_cmds_brands : string
}.

(** Each list joined with a newline between its statements. *)
Definition data_of (g : Generated) : Data :=
  {| data_mappings := join (String newline EmptyString) (mappings g);
     data_cmds_regular := join (String newline EmptyString) (cmds_regular g);
     data_cmds_solid := join (String newline EmptyString) (cmds_solid g);
     data_cmds_brands := join (String newline EmptyString) (cmds_brands g) |}.

(** [main] from the loaded [icons] to the generated entries of [data]. *)
Definition main (icons : dict Icon) : result Data :=
  g <- main_lists icons ;; Ok (data_of g).

(** The entries of [icons] in the order of [icon_list], each name with the
    record [icons[name]]. *)
Definition items_of {V : Type} (d : dict V) (l : list string)
  : list (string * V) :=
  flat_map (fun k => match lookup d k with
                     | Some v => [(k, v)]
                     | None => []
                     end) l.

Definition sorted_items {V : Type} (d : dict V) : list (string * V) :=
  items_of d (sorted (keys d)).

(** The icon set of the specification's worked example, in two insertion
    orders. *)
Definition face_smile : Icon := mkIcon "f118" ["solid"].
Definition github : Icon := mkIcon "f09b" ["brands"].
Definition sample : dict Icon :=
  [("github", github); ("face-smile", face_smile)].
Definition sample' : dict Icon :=
  [("face-smile", face_smile); ("github", github)].

(** ** Definitions that follow the specification's words *)

Module Spec.

(** StyleTarget: the closed enumeration of the three styles. *)
Inductive Style : Type := regular | solid | brands.

Definition tag (s : Style) : string :=
  match s with
  | regular => "regular"
  | solid => "solid"
  | brands => "brands"
  end.

(** The font-family identifier bound to each style. *)
Definition family (s : Style) : string :=
  match s with
  | regular => "FontAwesomeRegular"
  | solid => "FontAwesomeSolid"
  | brands => "FontAwesomeBrands"
  end.

(** FallbackRule: solid -> regular, regular -> solid, brands -> none. *)
Definition FallbackRule (s : Style) : option Style :=
  match s with
  | solid => Some regular
  | regular => Some solid
  | brands => None
  end.

Definition has_style (icon : Icon) (s : Style) : bool :=
  existsb (String.eqb (tag s)) (styles icon).

(** Steps 1 to 4 of the Command Generator: the resolved style, if any. *)
Definition resolve (target : Style) (icon : Icon) : option Style :=
  if has_style icon target then Some target
  else match FallbackRule target with
       | Some fb => if has_style icon fb then Some fb else None
       | None => None
       end.

(** The command statement of section 6. *)
Definition command_statement (cmdname font name : string) : string :=
  "\def\fa" ++ cmdname ++ "{{\" ++ font ++ "\csname faicon@" ++ name
    ++ "\endcsname}}".

(** GeneratedCommand: the statement for one (icon, style) pair, absent
    when the icon has neither the style nor its fallback. *)
Definition generated_command (target : Style) (e : string * Icon)
  : option string :=
  option_map
    (fun r => command_statement (make_cmdname (fst e)) (family r) (fst e))
    (resolve target (snd e)).

(** [target] is in the styles, or its fallback is. *)
Definition supports (target : Style) (icon : Icon) : bool :=
  (has_style icon target
   || match FallbackRule target with
      | Some fb => has_style icon fb
      | None => false
      end)%bool.

Definition count (p : Icon -> bool) (d : dict Icon) : nat :=
  List.length (filter (fun e => p (snd e)) d).

(** The mapping statement as section 6 writes it, the code point between
    two double quotes. *)
Definition mapping_statement_as_written (name codepoint : string) : string :=
  "\expandafter\def\csname faicon@" ++ name ++ "\endcsname{\symbol{"
    ++ String dquote codepoint ++ String dquote "}}".

(** The mapping statement with the code point in TeX's hexadecimal
    notation: one double quote in front, none behind. *)
Definition mapping_statement_hex (name codepoint : string) : string :=
  "\expandafter\def\csname faicon@" ++ name ++ "\endcsname{\symbol{"
    ++ String dquote codepoint ++ "}}".

(** The Name Normalizer's algorithm of section 4.1: a scan carrying the
    flag "capitalize next letter", [true] at the start. *)
Fixpoint normalize_from (flag : bool) (s : string) : string :=
  match s with
  | EmptyString => EmptyString
  | String c s' =>
      if Ascii.eqb c hyphen then normalize_from true s'
      else String (if flag then upper_char c else c) (normalize_from false s')
  end.

Definition normalize (name : string) : string := normalize_from true name.

(** Icon names: lowercase letters, digits and hyphens. *)
Definition name_char (c : ascii) : bool :=
  (is_lower c || is_digit c || Ascii.eqb c hyphen)%bool.

Fixpoint all_chars (p : ascii -> bool) (s : string) : bool :=
  match s with
  | EmptyString => true
  | String c s' => (p c && all_chars p s')%bool
  end.

(** [name.split("-")] *)
Fixpoint split (s : string) : list string :=
  match s with
  | EmptyString => [EmptyString]
  | String c s' =>
      if Ascii.eqb c hyphen then EmptyString :: split s'
      else match split s' with
           | seg :: segs => String c seg :: segs
           | [] => [String c EmptyString]
           end
  end.

(** A segment with its first character uppercased. *)
Definition capitalize (seg : string) : string :=
  match seg with
  | EmptyString => EmptyString
  | String c r => String (upper_char c) r
  end.

(** A sequence of non-empty lowercase alphanumeric segments joined by
    hyphens. *)
Definition segment (seg : string) : bool :=
  (negb (String.eqb seg "")
   && all_chars (fun c => is_lower c || is_digit c) seg)%bool.

Definition segmented (name : string) : bool := forallb segment (split name).

(** The character expected at each position of the name that holds no
    hyphen: uppercased at position 0 and right after a hyphen. *)
Definition flag_at (cs : list ascii) (i : nat) : bool :=
  (Nat.eqb i 0 || Ascii.eqb (nth (i - 1) cs hyphen) hyphen)%bool.

Definition expected_char (cs : list ascii) (i : nat) : ascii :=
  let c := nth i cs hyphen in
  if flag_at cs i then upper_char c else c.

Definition expected (name : string) : string :=
  let cs := list_ascii_of_string name in
  string_of_list_ascii
    (map (expected_char cs)
       (filter (fun i => negb (Ascii.eqb (nth i cs hyphen) hyphen))
          (seq 0 (List.length cs)))).

(** A run of [n] hyphens. *)
Fixpoint hyphens (n : nat) : string :=
  match n with
  | 0 => EmptyString
  | S n' => String hyphen (hyphens n')
  end.

(** Entries in strictly ascending order of their names. *)
Definition name_lt (a b : string * Icon) : Prop :=
  String.ltb (fst a) (fst b) = true.

(** The command list of a style. *)
Definition cmds_of (target : Style) (g : Generated) : list string :=
  match target with
  | regular => cmds_regular g
  | solid => cmds_solid g
  | brands => cmds_brands g
  end.

(** What the filter [if cmd] is meant to do: drop the [None]s. *)
Fixpoint somes (l : list (option string)) : list string :=
  match l with
  | [] => []
  | Some s :: l' => s :: somes l'
  | None :: l' => somes l'
  end.

End Spec.

Import Spec.

(** ** Notions for the properties beyond the claims *)

Module Aux.

(** The number of hyphens of a name. *)
Fixpoint hyphen_count (s : string) : nat :=
  match s with
  | EmptyString => 0
  | String c s' => (if Ascii.eqb c hyphen then 1 else 0) + hyphen_count s'
  end.

(** Names made of segments joined by single hyphens, each segment a
    lowercase letter followed by lowercase letters and digits.
    [after_hyphen] tells that a segment has to start here. *)
Fixpoint well_hyphenated (after_hyphen : bool) (s : string) : bool :=
  match s with
  | EmptyString => negb after_hyphen
  | String c s' =>
      if Ascii.eqb c hyphen
      then (negb after_hyphen && well_hyphenated true s')%bool
      else ((if after_hyphen then is_lower c
             else (is_lower c || is_digit c)%bool)
            && well_hyphenated false s')%bool
  end.

Definition letter_led (name : string) : bool := well_hyphenated true name.

(** The characters below 128, on which [upper_char] is [str.upper]. *)
Definition is_ascii (c : ascii) : bool := Nat.ltb (nat_of_ascii c) 128.

Definition lower_char (c : ascii) : ascii :=
  if is_upper c then ascii_of_nat (nat_of_ascii c + 32) else c.

(** Reading a command name back: an uppercase letter starts a segment. *)
Fixpoint decode_from (first : bool) (s : string) : string :=
  match s with
  | EmptyString => EmptyString
  | String c s' =>
      if is_upper c
      then (if first then "" else "-")
             ++ String (lower_char c) (decode_from false s')
      else String c (decode_from false s')
  end.

Definition backslash : ascii := "\"%char.

(** The three style tags are all absent from the styles of an icon. *)
Definition no_known_style (icon : Icon) : bool :=
  (negb (has_style icon regular) && negb (has_style icon solid)
   && negb (has_style icon brands))%bool.

(** The icon has both the regular and the solid style. *)
Definition both_styles (icon : Icon) : bool :=
  (has_style icon regular && has_style icon solid)%bool.

End Aux.

Import Aux.

(** ** Formatting with [%], the template and the rest of [main]

    [template % data] for a [dict] [data] is modelled for the two
    directives the program uses, [%%] and [%(key)s]; any other directive is
    reported as unsupported.

    The part of [main] around the generation pass acts on the outside
    world, modelled as explicit state: the file system, the lines printed
    and the URLs requested.  The model does not look into the file system:
    its state is of any type [fs], and [os.path.exists], [os.remove],
    [open] and [write] are the operations of a record [OS fs], each of
    which may fail where the real call may raise.  The response to a
    request, the YAML loader, the program name and the date are taken from
    an environment. *)

Module Format.

Inductive state : Type :=
| Text
| Percent
| Key (key : string)
| Conv (key : string).

Fixpoint format_from (st : state) (template : string) (data : dict string)
  : result string :=
  match template with
  | EmptyString =>
      match st with
      | Text => Ok EmptyString
      | _ => Raise (ValueError "incomplete format")
      end
  | String c t =>
      match st with
      | Text =>
          if Ascii.eqb c "%" then format_from Percent t data
          else rest <- format_from Text t data ;; Ok (String c rest)
      | Percent =>
          if Ascii.eqb c "%" then
            rest <- format_from Text t data ;; Ok (String "%" rest)
          else if Ascii.eqb c "(" then format_from (Key "") t data
          else Raise (ValueError "unsupported format character")
      | Key key =>
          if Ascii.eqb c ")" then format_from (Conv key) t data
          else format_from (Key (key ++ String c "")) t data
      | Conv key =>
          if Ascii.eqb c "s" then
            v <- getitem data key ;;
            rest <- format_from Text t data ;;
            Ok (v ++ rest)
          else Raise (ValueError "unsupported format character")
      end
  end.

(** [template % data] *)
Definition format (template : string) (data : dict string) : result string :=
  format_from Text template data.

End Format.

Definition FA_URL : string := "https://github.com/FortAwesome/Font-Awesome".
Definition ICONS_URL : string := FA_URL ++ "/raw/master/metadata/icons.yml".

(** [STY_TEMPLATE], the value of the literal. *)
Definition STY_TEMPLATE : string :=
"%%
%% Font Awesome v5 mapping for XeLaTeX
%%
%% Generated by: %(program)s
%% Date: %(date)s
%%
%% Usage
%% -----
%% 1. \usepackage{fontawesome}  %% Prefer *Solid* style by default
%%    or
%%    \usepackage[regular]{fontawesome}  %% Prefer *Regular* style
%%
%%    NOTE:
%%    The *Solid* style has much more icons than the *Regular* style.
%%    If one style doesn't have one icon, it fallbacks to the other style.
%%
%% 2. use an icon, e.g., \faGitHub
%%

\NeedsTeXFormat{LaTeX2e}[1994/06/01]
\ProvidesPackage{fontawesome5}[%(date)s Font Awesome 5]

\DeclareOption{regular}{\def\FA@regular{true}}
\ProcessOptions\relax

\RequirePackage{fontspec}

%% Declare all variants
%% Solid (default)
\newfontfamily\FontAwesomeSolid[
  BoldFont={Font Awesome 5 Free Solid},
]{Font Awesome 5 Free Solid}
%% Regular
\newfontfamily\FontAwesomeRegular[
  BoldFont={Font Awesome 5 Free},
]{Font Awesome 5 Free}
%% Brands
\newfontfamily\FontAwesomeBrands[
  BoldFont={Font Awesome 5 Brands},
]{Font Awesome 5 Brands}

%% Generic command displaying an icon by its name
%% \newcommand*{\faicon}[1]{{\FA\csname faicon@#1\endcsname}}

%% Mappings
%(mappings)s

%% TeX commands
\ifundef{\FA@regular}{
%% [Solid] fallback to Regular style
%(cmds_solid)s
}{
%% [Regular] fallback to Solid style
%(cmds_regular)s
}
%% [Brands]
%(cmds_brands)s

\endinput
%% EOF
".

Module IO.

(** The parsed arguments. *)
Record Args : Type := mkArgs {
  clobber : bool;
  infile : option string;
  outfile : string
}.

Record Env : Type := mkEnv {
  (** the decoded body of the response to a request, if it succeeds *)
  urlopen : string -> option string;
  (** [yaml.safe_load], if the text is a mapping of icon records *)
  safe_load : string -> option (dict Icon);
  (** [os.path.basename(sys.argv[0])] *)
  program : string;
  (** [datetime.now().strftime("%Y/%m/%d")] *)
  date : string
}.

(** The file operations [main] calls, on a file system state [fs]. *)
Record OS (fs : Type) : Type := mkOS {
  (** [os.path.exists(path)] *)
  os_exists : fs -> string -> bool;
  (** [os.remove(path)]: the state after it, [None] if it raises (a
      directory, no permission, ...), the state then being as before *)
  os_remove : fs -> string -> option fs;
  (** [open(path).read()]: the text, [None] if either call raises *)
  os_read : fs -> string -> option string;
  (** [open(path, "w")]: the state after it, [None] if it raises (no such
      directory, no permission, ...), the state then being as before *)
  os_open_w : fs -> string -> option fs;
  (** [f.write(text)] on the file just opened: the state after it, and
      whether it returned; a failing write may leave a partial file *)
  os_write : fs -> string -> string -> fs * bool
}.
Arguments os_exists {fs} o _ _.
Arguments os_remove {fs} o _ _.
Arguments os_read {fs} o _ _.
Arguments os_open_w {fs} o _ _.
Arguments os_write {fs} o _ _ _.

Record World (fs : Type) : Type := mkWorld {
  disk : fs;
  stdout : list string;
  requests : list string
}.
Arguments mkWorld {fs} _ _ _.
Arguments disk {fs} w.
Arguments stdout {fs} w.
Arguments requests {fs} w.

Inductive error : Type :=
| OSError (msg : string)
| RemoveError (path : string)
| OpenError (path : string)
| WriteError (path : string)
| RequestError (url : string)
| LoadError
| Exn (e : exn).

Definition M (fs A : Type) : Type := World fs -> (error + A) * World fs.

Definition ret {fs A : Type} (a : A) : M fs A := fun w => (inr a, w).

Definition raise {fs A : Type} (e : error) : M fs A := fun w => (inl e, w).

Definition bindM {fs A B : Type} (m : M fs A) (k : A -> M fs B) : M fs B :=
  fun w =>
    match m w with
    | (inr a, w') => k a w'
    | (inl e, w') => (inl e, w')
    end.

Definition lift {fs A : Type} (r : result A) : M fs A :=
  match r with
  | Ok a => ret a
  | Raise e => raise (Exn e)
  end.

(** [print(line)] *)
Definition print {fs : Type} (line : string) : M fs unit :=
  fun w => (inr tt, mkWorld (disk w) (stdout w ++ [line])%list (requests w)).

(** [os.path.exists(path)] *)
Definition path_exists {fs : Type} (os : OS fs) (path : string) : M fs bool :=
  fun w => (inr (os_exists os (disk w) path), w).

(** [os.remove(path)] *)
Definition remove {fs : Type} (os : OS fs) (path : string) : M fs unit :=
  fun w =>
    match os_remove os (disk w) path with
    | Some s => (inr tt, mkWorld s (stdout w) (requests w))
    | None => (inl (RemoveError path), w)
    end.

(** [open(path).read()] *)
Definition read {fs : Type} (os : OS fs) (path : string) : M fs string :=
  fun w =>
    match os_read os (disk w) path with
    | Some text => (inr text, w)
    | None => (inl (OpenError path), w)
    end.

(** [open(path, "w")] *)
Definition open_w {fs : Type} (os : OS fs) (path : string) : M fs unit :=
  fun w =>
    match os_open_w os (disk w) path with
    | Some s => (inr tt, mkWorld s (stdout w) (requests w))
    | None => (inl (OpenError path), w)
    end.

(** [f.write(text)] on the file just opened for writing. *)
Definition write {fs : Type} (os : OS fs) (path text : string) : M fs unit :=
  fun w =>
    match os_write os (disk w) path text with
    | (s, true) => (inr tt, mkWorld s (stdout w) (requests w))
    | (s, false) => (inl (WriteError path), mkWorld s (stdout w) (requests w))
    end.

(** [urllib.request.urlopen(url)], [read] and [decode]. *)
Definition request {fs : Type} (env : Env) (url : string) : M fs string :=
  fun w =>
    let w' := mkWorld (disk w) (stdout w) (requests w ++ [url])%list in
    match urlopen env url with
    | Some text => (inr text, w')
    | None => (inl (RequestError url), w')
    end.

Definition load {fs : Type} (env : Env) (data : string) : M fs (dict Icon) :=
  match safe_load env data with
  | Some icons => ret icons
  | None => raise LoadError
  end.

(** ["%d" % n] *)
Definition decimal (n : nat) : string :=
  DecimalString.NilZero.string_of_uint (Nat.to_uint n).

(** The truth value of [args.infile]: [None] and [""] are false. *)
Definition given (f : option string) : bool := truthy f.

(** A file system to try [main] on: text files by path, on which every
    call succeeds but the removal or the reading of a file that is not
    there. *)
Definition files : Type := string -> option string.

Definition update (fs : files) (path : string) (content : option string)
  : files :=
  fun p => if String.eqb p path then content else fs p.

Definition files_os : OS files :=
  mkOS files
    (fun s p => match s p with Some _ => true | None => false end)
    (fun s p => match s p with
                | Some _ => Some (update s p None)
                | None => None
                end)
    (fun s p => s p)
    (fun s p => Some (update s p (Some "")))
    (fun s p text => (update s p (Some text), true)).

End IO.

Import IO.

Notation "x <~ m ;; k" := (bindM m (fun x => k))
  (at level 61, m at next level, right associativity).
Notation "m ;;; k" := (bindM m (fun _ => k))
  (at level 61, right associativity).

(** [get_icons_yml] *)
Definition get_icons_yml {fs : Type} (env : Env) (url : string)
  : M fs string :=
  print ("Downloading icons.yml from: " ++ url) ;;;
  request env url.

(** The dictionary [data] of [main]. *)
Definition data_dict (env : Env) (d : Data) : dict string :=
  [ ("program", program env);
    ("date", date env);
    ("mappings", data_mappings d);
    ("cmds_regular", data_cmds_regular d);
    ("cmds_solid", data_cmds_solid d);
    ("cmds_brands", data_cmds_brands d) ].

(** [main] after the arguments are parsed. *)
Definition main_io {fs : Type} (os : OS fs) (env : Env) (args : Args)
  : M fs unit :=
  ex <~ path_exists os (outfile args) ;;
  (if ex then
     if clobber args then
       remove os (outfile args) ;;;
       print ("Removed existing file: " ++ outfile args)
     else raise (OSError ("File already exists: " ++ outfile args))
   else ret tt) ;;;
  data <~ (match infile args with
           | Some path =>
               if given (infile args) then read os path
               else get_icons_yml env ICONS_URL
           | None => get_icons_yml env ICONS_URL
           end) ;;
  print "Loading icons data ..." ;;;
  icons <~ load env data ;;
  print ("Number of icons: "
           ++ decimal (List.length (sorted (keys icons)))) ;;;
  d <~ lift (main icons) ;;
  open_w os (outfile args) ;;;
  text <~ lift (Format.format STY_TEMPLATE (data_dict env d)) ;;
  write os (outfile args) text ;;;
  print ("Mapping writen to file: " ++ outfile args).

(** The text [main] writes, [""] if formatting failed. *)
Definition sty (env : Env) (d : Data) : string :=
  match Format.format STY_TEMPLATE (data_dict env d) with
  | Ok text => text
  | Raise _ => ""
  end.

(** The lines [main] prints when it succeeds. *)
Definition printed {fs : Type} (os : OS fs) (args : Args) (w : World fs)
    (icons : dict Icon) : list string :=
  ((if os_exists os (disk w) (outfile args)
    then [("Removed existing file: " ++ outfile args)%string] else [])
   ++ (if given (infile args) then []
       else [("Downloading icons.yml from: " ++ ICONS_URL)%string])
   ++ [ "Loading icons data ...";
        ("Number of icons: " ++ decimal (List.length icons))%string;
        ("Mapping writen to file: " ++ outfile args)%string ])%list.

(** The output path is free, or it is taken, [--clobber] is given and the
    removal goes through. *)
Definition passes_check {fs : Type} (os : OS fs) (args : Args) (s : fs)
  : bool :=
  (negb (os_exists os s (outfile args))
   || (clobber args
       && match os_remove os s (outfile args) with
          | Some _ => true
          | None => false
          end))%bool.

(** The file system after the check of the output path, whether it passed
    or not. *)
Definition after_check {fs : Type} (os : OS fs) (args : Args) (s : fs) : fs :=
  if (os_exists os s (outfile args) && clobber args)%bool then
    match os_remove os s (outfile args) with
    | Some s1 => s1
    | None => s
    end
  else s.

(** An environment and a world to try [main] on. *)
Definition sample_env : Env :=
  mkEnv (fun url => if String.eqb url ICONS_URL then Some "icons" else None)
        (fun text => if String.eqb text "icons" then Some sample else None)
        "make-fontawesome5.py" "2018/01/15".

Definition sample_files : files :=
  fun p => if String.eqb p "icons.yml" then Some "icons"
           else if String.eqb p "fontawesome5.sty" then Some "old"
           else None.

Definition sample_world : World files := mkWorld sample_files [] [].

(** ** Strings *)

Lemma append_nil_r (s : string) : s ++ "" = s.
Proof. induction s as [|c s IH]; simpl; [reflexivity | now rewrite IH]. Qed.

Lemma append_assoc (s t u : string) : (s ++ t) ++ u = s ++ (t ++ u).
Proof. induction s as [|c s IH]; simpl; [reflexivity | now rewrite IH]. Qed.

Lemma append_inv_head (s t u : string) : s ++ t = s ++ u -> t = u.
Proof.
  induction s as [|c s IH]; simpl; intros H; [assumption|].
  injection H as H. now apply IH.
Qed.

Lemma join_empty_app (l : list string) (x : string) :
  join "" (l ++ [x])%list = join "" l ++ x.
Proof.
  unfold join.
  induction l as [|y l IH]; [reflexivity|].
  destruct l as [|z l].
  - simpl. reflexivity.
  - change (String.concat "" ((y :: z :: l) ++ [x])%list)
      with (y ++ "" ++ String.concat "" ((z :: l) ++ [x])%list).
    rewrite IH.
    change (String.concat "" (y :: z :: l))
      with (y ++ "" ++ String.concat "" (z :: l)).
    simpl. now rewrite append_assoc.
Qed.

(** ** The Name Normalizer *)

Lemma make_cmdname_loop (cs : list ascii) :
  forall (k : nat) (acc : list string) (flag : bool),
    join "" (fst (fold_left make_cmdname_step
                    (combine (seq k (List.length cs)) cs) (acc, flag)))
    = join "" acc
        ++ normalize_from (Nat.eqb k 0 || flag) (string_of_list_ascii cs).
Proof.
  induction cs as [|c cs IH]; intros k acc flag.
  - simpl. now rewrite append_nil_r.
  - cbn [List.length seq combine fold_left string_of_list_ascii
         normalize_from make_cmdname_step].
    destruct (Ascii.eqb c hyphen).
    + rewrite IH. now rewrite orb_true_r.
    + rewrite IH. cbn [Nat.eqb orb].
      destruct (Nat.eqb k 0) eqn:Hk; cbn [orb].
      * rewrite join_empty_app. cbn [str_upper].
        rewrite append_assoc. reflexivity.
      * destruct flag; rewrite join_empty_app; cbn [str_upper];
          rewrite append_assoc; reflexivity.
Qed.

(** The loop of [make_cmdname] computes the scan of section 4.1. *)
Lemma make_cmdname_normalize (name : string) :
  make_cmdname name = normalize name.
Proof.
  unfold make_cmdname, enumerate, normalize.
  pose proof (make_cmdname_loop (list_ascii_of_string name) 0 [] false) as H.
  destruct (fold_left _ _ _) as [cmdname upper].
  cbn [fst] in H. rewrite H.
  now rewrite string_of_list_ascii_of_string.
Qed.

(** *** Characters *)

Ltac by_cases_on_char c :=
  destruct c as [[] [] [] [] [] [] [] []]; vm_compute; intuition congruence.

Lemma upper_char_lower (c : ascii) :
  is_lower c = true ->
  is_upper (upper_char c) = true /\
  nat_of_ascii (upper_char c) + 32 = nat_of_ascii c.
Proof. by_cases_on_char c. Qed.

Lemma upper_char_fixed (c : ascii) :
  (is_digit c || is_upper c)%bool = true -> upper_char c = c.
Proof. by_cases_on_char c. Qed.

Lemma name_char_alnum (c : ascii) :
  name_char c = true -> Ascii.eqb c hyphen = false ->
  is_alnum c = true /\ is_alnum (upper_char c) = true.
Proof. by_cases_on_char c. Qed.

Lemma name_char_not_hyphen (c : ascii) :
  name_char c = true -> Ascii.eqb c hyphen = false ->
  negb (Ascii.eqb c hyphen) = true /\
  negb (Ascii.eqb (upper_char c) hyphen) = true.
Proof. by_cases_on_char c. Qed.

Lemma name_char_letter (c : ascii) :
  (name_char c && negb (is_digit c))%bool = true ->
  Ascii.eqb c hyphen = false ->
  is_letter c = true /\ is_letter (upper_char c) = true.
Proof. by_cases_on_char c. Qed.

Lemma segment_char_name_char (c : ascii) :
  (is_lower c || is_digit c)%bool = true -> name_char c = true.
Proof. by_cases_on_char c. Qed.

Lemma all_chars_and (p q : ascii -> bool) (s : string) :
  all_chars p s = true -> all_chars q s = true ->
  all_chars (fun c => p c && q c)%bool s = true.
Proof.
  induction s as [|c s IH]; simpl; [reflexivity|].
  rewrite !andb_true_iff. intros [Hp Hs] [Hq Hs'].
  now rewrite Hp, Hq, IH.
Qed.

(** *** The scan *)

(** The scan keeps a property of the characters that uppercasing keeps. *)
Lemma normalize_from_all (p q : ascii -> bool) :
  (forall c, p c = true -> Ascii.eqb c hyphen = false ->
             q c = true /\ q (upper_char c) = true) ->
  forall (s : string) (flag : bool),
    all_chars p s = true -> all_chars q (normalize_from flag s) = true.
Proof.
  intros Hpq s.
  induction s as [|c s IH]; intros flag; simpl; [reflexivity|].
  rewrite andb_true_iff. intros [Hc Hs].
  destruct (Ascii.eqb c hyphen) eqn:Hh.
  - now apply IH.
  - destruct (Hpq c Hc Hh) as [Hq Hqu].
    simpl. rewrite (IH false Hs), andb_true_r.
    now destruct flag.
Qed.

(** A hyphen sets the flag whatever it was. *)
Lemma normalize_from_app_hyphen (s t : string) (flag : bool) :
  normalize_from flag (s ++ String hyphen t)
  = normalize_from flag s ++ normalize_from true t.
Proof.
  revert flag.
  induction s as [|c s IH]; intros flag; simpl; [reflexivity|].
  destruct (Ascii.eqb c hyphen); [apply IH|].
  now rewrite IH.
Qed.

Lemma normalize_from_hyphens (n : nat) (t : string) (flag : bool) :
  normalize_from flag (hyphens (S n) ++ t) = normalize_from true t.
Proof.
  revert flag.
  induction n as [|n IH]; intros flag; [reflexivity|].
  change (hyphens (S (S n)) ++ t) with (String hyphen (hyphens (S n) ++ t)).
  cbn [normalize_from]. rewrite Ascii.eqb_refl. apply IH.
Qed.

(** *** Positions *)

Lemma expected_from (cs : list ascii) :
  forall pre : list ascii,
    map (expected_char (pre ++ cs))
      (filter (fun i => negb (Ascii.eqb (nth i (pre ++ cs) hyphen) hyphen))
         (seq (List.length pre) (List.length cs)))
    = list_ascii_of_string
        (normalize_from (flag_at (pre ++ cs) (List.length pre))
           (string_of_list_ascii cs)).
Proof.
  induction cs as [|c cs IH]; intros pre; [reflexivity|].
  cbn [List.length seq filter string_of_list_ascii normalize_from].
  rewrite nth_middle.
  assert (Hnext : flag_at (pre ++ c :: cs) (S (List.length pre))
                  = Ascii.eqb c hyphen).
  { unfold flag_at. cbn [Nat.eqb orb].
    replace (S (List.length pre) - 1) with (List.length pre) by lia.
    now rewrite nth_middle. }
  specialize (IH (pre ++ [c])%list).
  rewrite <- app_assoc in IH. cbn [app] in IH.
  rewrite length_app in IH. cbn [List.length] in IH.
  rewrite Nat.add_1_r in IH. rewrite Hnext in IH.
  destruct (Ascii.eqb c hyphen) eqn:Hh; cbn [negb].
  - exact IH.
  - cbn [map list_ascii_of_string]. rewrite IH. f_equal.
    unfold expected_char. rewrite nth_middle. reflexivity.
Qed.

Lemma normalize_expected (name : string) : normalize name = expected name.
Proof.
  unfold expected, normalize.
  pose proof (expected_from (list_ascii_of_string name) []) as H.
  cbn [app List.length] in H. rewrite H.
  now rewrite !string_of_list_ascii_of_string.
Qed.

(** *** Segments *)

Lemma join_empty_cons (x : string) (l : list string) :
  join "" (x :: l) = x ++ join "" l.
Proof.
  unfold join. destruct l as [|y l]; simpl; [now rewrite append_nil_r|].
  reflexivity.
Qed.

Lemma normalize_from_split (s : string) :
  forall flag : bool,
    normalize_from flag s
    = match split s with
      | [] => ""
      | seg :: segs =>
          (if flag then capitalize seg else seg)
            ++ join "" (map capitalize segs)
      end.
Proof.
  induction s as [|c s IH]; intros flag.
  - now destruct flag.
  - cbn [normalize_from split].
    destruct (Ascii.eqb c hyphen).
    + rewrite (IH true).
      destruct (split s) as [|seg segs].
      * now destruct flag.
      * cbn [map]. rewrite join_empty_cons. now destruct flag.
    + rewrite (IH false).
      destruct (split s) as [|seg segs]; now destruct flag.
Qed.

Lemma normalize_capitalize (name : string) :
  normalize name = join "" (map capitalize (split name)).
Proof.
  unfold normalize. rewrite normalize_from_split.
  destruct (split name) as [|seg segs] eqn:E; [reflexivity|].
  cbn [map]. now rewrite join_empty_cons.
Qed.

Lemma split_name_chars (s : string) :
  match split s with
  | [] => False
  | seg :: segs =>
      all_chars (fun c => is_lower c || is_digit c)%bool seg = true ->
      forallb segment segs = true ->
      all_chars name_char s = true
  end.
Proof.
  induction s as [|c s IH]; cbn [split]; [reflexivity|].
  destruct (Ascii.eqb c hyphen) eqn:Hh.
  - destruct (split s) as [|seg segs]; [contradiction|].
    intros _ Hsegs. cbn [forallb] in Hsegs.
    apply andb_true_iff in Hsegs as [Hseg Hsegs].
    unfold segment in Hseg. apply andb_true_iff in Hseg as [_ Hseg].
    cbn [all_chars]. rewrite (IH Hseg Hsegs), andb_true_r.
    unfold name_char. rewrite Hh. now rewrite orb_true_r.
  - destruct (split s) as [|seg segs]; [contradiction|].
    cbn [all_chars]. intros Hseg Hsegs.
    apply andb_true_iff in Hseg as [Hc Hseg].
    rewrite (IH Hseg Hsegs), andb_true_r.
    now apply segment_char_name_char.
Qed.

Lemma segmented_name_chars (name : string) :
  segmented name = true -> all_chars name_char name = true.
Proof.
  unfold segmented. pose proof (split_name_chars name) as H.
  destruct (split name) as [|seg segs]; [contradiction|].
  cbn [forallb]. rewrite andb_true_iff. intros [Hseg Hsegs].
  apply H; [|assumption].
  unfold segment in Hseg. now apply andb_true_iff in Hseg as [_ Hseg].
Qed.

(** ** The order of [str] and [sorted] *)

Section StringOrder.

Lemma ascii_compare_refl (a : ascii) : Ascii.compare a a = Eq.
Proof. unfold Ascii.compare. apply N.compare_refl. Qed.

Lemma ascii_compare_lt_trans (a b c : ascii) :
  Ascii.compare a b = Lt -> Ascii.compare b c = Lt -> Ascii.compare a c = Lt.
Proof.
  unfold Ascii.compare. rewrite !N.compare_lt_iff. apply N.lt_trans.
Qed.

Lemma compare_refl (s : string) : String.compare s s = Eq.
Proof.
  induction s as [|a s IH]; simpl; [reflexivity|].
  now rewrite ascii_compare_refl.
Qed.

Lemma compare_lt_trans (s t u : string) :
  String.compare s t = Lt -> String.compare t u = Lt ->
  String.compare s u = Lt.
Proof.
  revert t u.
  induction s as [|a s IH]; intros [|b t] [|c u]; simpl;
    try congruence.
  destruct (Ascii.compare a b) eqn:Hab; try discriminate.
  - apply Ascii.compare_eq_iff in Hab. subst b.
    destruct (Ascii.compare a c); try congruence. apply IH.
  - intros _.
    destruct (Ascii.compare b c) eqn:Hbc; try discriminate.
    + apply Ascii.compare_eq_iff in Hbc. subst c. now rewrite Hab.
    + intros _. now rewrite (ascii_compare_lt_trans a b c).
Qed.

Lemma leb_iff (s t : string) :
  String.leb s t = true <-> String.compare s t = Lt \/ s = t.
Proof.
  unfold String.leb. split.
  - destruct (String.compare s t) eqn:E; try discriminate.
    + right. now apply String.compare_eq_iff.
    + now left.
  - intros [H | H]; [now rewrite H|].
    subst t. now rewrite compare_refl.
Qed.

Lemma leb_trans (s t u : string) :
  String.leb s t = true -> String.leb t u = true -> String.leb s u = true.
Proof.
  rewrite !leb_iff. intros [Hst | ->] [Htu | ->]; auto.
  left. eapply compare_lt_trans; eassumption.
Qed.

Lemma leb_false_flip (s t : string) :
  String.leb s t = false -> String.leb t s = true.
Proof.
  intros H. destruct (String.leb_total s t) as [H' | H']; congruence.
Qed.

Lemma leb_neq_ltb (s t : string) :
  String.leb s t = true -> s <> t -> String.ltb s t = true.
Proof.
  rewrite leb_iff. unfold String.ltb. intros [H | H] Hne; [now rewrite H|].
  contradiction.
Qed.

End StringOrder.

Lemma insert_insert (x y : string) (l : list string) :
  insert x (insert y l) = insert y (insert x l).
Proof.
  induction l as [|z l IH]; cbn [insert].
  - destruct (String.leb x y) eqn:Hxy, (String.leb y x) eqn:Hyx;
      cbn [insert]; rewrite ?Hxy, ?Hyx; try reflexivity.
    + now rewrite (String.leb_antisym x y Hxy Hyx).
    + apply leb_false_flip in Hxy. congruence.
  - destruct (String.leb y z) eqn:Hyz, (String.leb x z) eqn:Hxz;
      cbn [insert]; rewrite ?Hyz, ?Hxz.
    + destruct (String.leb x y) eqn:Hxy, (String.leb y x) eqn:Hyx;
        cbn [insert]; rewrite ?Hyz, ?Hxz; try reflexivity.
      * now rewrite (String.leb_antisym x y Hxy Hyx).
      * apply leb_false_flip in Hxy. congruence.
    + destruct (String.leb x y) eqn:Hxy.
      * rewrite (leb_trans x y z Hxy Hyz) in Hxz. discriminate.
      * cbn [insert]. now rewrite ?Hxz.
    + destruct (String.leb y x) eqn:Hyx.
      * rewrite (leb_trans y x z Hyx Hxz) in Hyz. discriminate.
      * cbn [insert]. now rewrite ?Hyz.
    + now rewrite IH.
Qed.

(** [sorted] does not depend on the order of its argument. *)
Lemma sorted_Permutation (l l' : list string) :
  Permutation l l' -> sorted l = sorted l'.
Proof.
  unfold sorted.
  induction 1 as [| x l l' _ IH | x y l | l l' l'' _ IH1 _ IH2]; cbn [fold_right].
  - reflexivity.
  - now rewrite IH.
  - apply insert_insert.
  - now rewrite IH1.
Qed.

Lemma insert_perm (x : string) (l : list string) :
  Permutation (insert x l) (x :: l).
Proof.
  induction l as [|y l IH]; cbn [insert]; [reflexivity|].
  destruct (String.leb x y); [reflexivity|].
  rewrite IH. apply perm_swap.
Qed.

Lemma sorted_perm (l : list string) : Permutation (sorted l) l.
Proof.
  induction l as [|x l IH]; [reflexivity|].
  change (sorted (x :: l)) with (insert x (sorted l)).
  rewrite insert_perm. now rewrite IH.
Qed.

Lemma insert_sorted (x : string) (l : list string) :
  StronglySorted (fun a b => String.leb a b = true) l ->
  StronglySorted (fun a b => String.leb a b = true) (insert x l).
Proof.
  induction 1 as [|y l Hl IH Hy]; cbn [insert].
  - repeat constructor.
  - destruct (String.leb x y) eqn:Hxy.
    + constructor; [now constructor|].
      constructor; [assumption|].
      eapply Forall_impl; [|exact Hy].
      intros z Hz. cbv beta in Hz. eapply leb_trans; eassumption.
    + constructor; [assumption|].
      assert (Hall : Forall (fun b => String.leb y b = true) (x :: l))
        by (constructor; [now apply leb_false_flip | assumption]).
      rewrite Forall_forall in *. intros b Hb. apply Hall.
      eapply Permutation_in; [apply insert_perm | exact Hb].
Qed.

Lemma sorted_sorted (l : list string) :
  StronglySorted (fun a b => String.leb a b = true) (sorted l).
Proof.
  induction l as [|x l IH]; [constructor|].
  change (sorted (x :: l)) with (insert x (sorted l)).
  now apply insert_sorted.
Qed.

Lemma StronglySorted_strict (l : list string) :
  NoDup l ->
  StronglySorted (fun a b => String.leb a b = true) l ->
  StronglySorted (fun a b => String.ltb a b = true) l.
Proof.
  intros Hnd Hs.
  induction Hs as [|x l Hl IH Hx]; [constructor|].
  inversion Hnd as [|x' l' Hnotin Hnd']; subst.
  constructor; [now apply IH|].
  rewrite Forall_forall in *. intros y Hy.
  apply leb_neq_ltb; [now apply Hx|].
  intros ->. contradiction.
Qed.

Lemma sorted_strict (l : list string) :
  NoDup l -> StronglySorted (fun a b => String.ltb a b = true) (sorted l).
Proof.
  intros Hnd. apply StronglySorted_strict; [|apply sorted_sorted].
  eapply Permutation_NoDup; [|exact Hnd].
  symmetry. apply sorted_perm.
Qed.

(** ** Dictionaries *)

Section Dict.

Context {V : Type}.
Implicit Types (d : dict V) (k : string) (v : V).

Lemma distinctb_NoDup (l : list string) : distinctb l = true -> NoDup l.
Proof.
  induction l as [|x l IH]; cbn [distinctb]; [constructor|].
  rewrite andb_true_iff, negb_true_iff. intros [Hx Hl].
  constructor; [|now apply IH].
  intros Hin.
  assert (existsb (String.eqb x) l = true) as E; [|congruence].
  apply existsb_exists. exists x. now rewrite String.eqb_refl.
Qed.

Lemma lookup_keys d k : In k (keys d) -> exists v, lookup d k = Some v.
Proof.
  induction d as [|[k' v'] d IH]; cbn [keys map lookup fst]; [contradiction|].
  intros [-> | Hin].
  - rewrite String.eqb_refl. now exists v'.
  - destruct (String.eqb k k'); [now exists v'|]. now apply IH.
Qed.

Lemma lookup_In d k v : lookup d k = Some v -> In (k, v) d.
Proof.
  induction d as [|[k' v'] d IH]; cbn [lookup]; [discriminate|].
  destruct (String.eqb_spec k k') as [-> | Hne].
  - intros [= ->]. now left.
  - intros H. right. now apply IH.
Qed.

Lemma In_lookup d k v : dict_wf d -> In (k, v) d -> lookup d k = Some v.
Proof.
  unfold dict_wf.
  induction d as [|[k' v'] d IH]; cbn [keys map lookup fst];
    [contradiction|].
  intros Hnd [[= -> ->] | Hin].
  - now rewrite String.eqb_refl.
  - inversion Hnd as [|? ? Hnotin Hnd']; subst.
    destruct (String.eqb_spec k k') as [-> | Hne].
    + exfalso. apply Hnotin. now apply (in_map fst) in Hin.
    + now apply IH.
Qed.

Lemma Permutation_wf d d' : Permutation d d' -> dict_wf d -> dict_wf d'.
Proof.
  unfold dict_wf, keys. intros Hp.
  apply Permutation_NoDup. now apply Permutation_map.
Qed.

(** A dictionary is its entries: insertion order does not change
    [d[k]]. *)
Lemma lookup_Permutation d d' k :
  dict_wf d -> Permutation d d' -> lookup d k = lookup d' k.
Proof.
  intros Hwf Hp.
  pose proof (Permutation_wf d d' Hp Hwf) as Hwf'.
  destruct (lookup d k) as [v|] eqn:E.
  - symmetry. apply In_lookup; [assumption|].
    eapply Permutation_in; [exact Hp|]. now apply lookup_In.
  - destruct (lookup d' k) as [v'|] eqn:E'; [|reflexivity].
    apply lookup_In in E'.
    apply (Permutation_in _ (Permutation_sym Hp)) in E'.
    apply (In_lookup d k v' Hwf) in E'. congruence.
Qed.

Lemma items_of_Permutation d (l l' : list string) :
  Permutation l l' -> Permutation (items_of d l) (items_of d l').
Proof. unfold items_of. intros H. now rewrite H. Qed.

Lemma items_of_keys d : dict_wf d -> items_of d (keys d) = d.
Proof.
  unfold dict_wf.
  induction d as [|[k v] d IH]; [reflexivity|].
  cbn [keys map fst]. intros Hnd.
  inversion Hnd as [|? ? Hnotin Hnd']; subst.
  unfold items_of. cbn [flat_map lookup]. rewrite String.eqb_refl.
  cbn [app]. f_equal.
  rewrite <- (IH Hnd') at 2. unfold items_of.
  rewrite !flat_map_concat_map. f_equal.
  apply map_ext_in. intros k' Hk'. fold (keys d) in Hk'.
  destruct (String.eqb_spec k' k) as [-> | Hne]; [contradiction|].
  reflexivity.
Qed.

Lemma sorted_items_Permutation d :
  dict_wf d -> Permutation (sorted_items d) d.
Proof.
  intros Hwf. unfold sorted_items.
  rewrite (items_of_Permutation d _ _ (sorted_perm (keys d))).
  now rewrite items_of_keys.
Qed.

Lemma items_of_fst d (l : list string) :
  incl l (keys d) -> map fst (items_of d l) = l.
Proof.
  induction l as [|k l IH]; [reflexivity|].
  intros Hincl.
  destruct (lookup_keys d k) as [v Hv]; [apply Hincl; now left|].
  unfold items_of. cbn [flat_map]. rewrite Hv. cbn [app map fst].
  f_equal. apply IH. intros x Hx. apply Hincl. now right.
Qed.

Lemma sorted_keys_incl d : incl (sorted (keys d)) (keys d).
Proof. intros k. apply Permutation_in, sorted_perm. Qed.

Lemma sorted_items_fst d : map fst (sorted_items d) = sorted (keys d).
Proof. apply items_of_fst, sorted_keys_incl. Qed.

Lemma sorted_items_length d : List.length (sorted_items d) = List.length d.
Proof.
  rewrite <- (length_map fst), sorted_items_fst.
  rewrite (Permutation_length (sorted_perm (keys d))).
  apply length_map.
Qed.

End Dict.

Lemma StronglySorted_map {A B : Type} (f : A -> B) (R : B -> B -> Prop)
    (l : list A) :
  StronglySorted R (map f l) ->
  StronglySorted (fun a b => R (f a) (f b)) l.
Proof.
  induction l as [|x l IH]; cbn [map]; intros H; [constructor|].
  inversion H as [|? ? Hs Hall]; subst.
  constructor; [now apply IH|].
  rewrite Forall_forall in *. intros y Hy. apply Hall. now apply in_map.
Qed.

Lemma sorted_items_sorted (d : dict Icon) :
  dict_wf d -> StronglySorted name_lt (sorted_items d).
Proof.
  intros Hwf. unfold name_lt.
  apply (StronglySorted_map fst (fun a b => String.ltb a b = true)).
  rewrite sorted_items_fst. now apply sorted_strict.
Qed.

(** ** Comprehensions *)


Lemma comprehension_items {V B : Type} (d : dict V)
    (f : string -> result B) (h : string * V -> B) (l : list string) :
  (forall k v, lookup d k = Some v -> f k = Ok (h (k, v))) ->
  incl l (keys d) ->
  comprehension f l = Ok (map h (items_of d l)).
Proof.
  intros Hf.
  induction l as [|k l IH]; intros Hincl; [reflexivity|].
  destruct (lookup_keys d k) as [v Hv]; [apply Hincl; now left|].
  cbn [comprehension]. rewrite (Hf k v Hv).
  rewrite IH by (intros x Hx; apply Hincl; now right).
  unfold items_of. cbn [flat_map bind]. now rewrite Hv.
Qed.

(** ** The Command Generator *)

Lemma make_cmd_resolve (name : string) (icon : Icon) (target : Style) :
  make_cmd name icon (tag target)
  = Ok (generated_command target (name, icon)).
Proof.
  unfold make_cmd, generated_command, resolve, has_style, contains.
  destruct target; cbn [tag String.eqb Ascii.eqb Bool.eqb bind FallbackRule
                        fst snd];
    destruct (existsb _ (styles icon)); try reflexivity;
    destruct (existsb _ (styles icon)); reflexivity.
Qed.

Lemma make_cmd_invalid (name : string) (icon : Icon) (style : string) :
  ~ In style ["regular"; "solid"; "brands"] ->
  make_cmd name icon style = Raise (ValueError ("Invalid style: " ++ style)).
Proof.
  intros H. unfold make_cmd.
  destruct (String.eqb_spec style "solid") as [-> | _];
    [exfalso; apply H; cbn; tauto|].
  destruct (String.eqb_spec style "regular") as [-> | _];
    [exfalso; apply H; cbn; tauto|].
  destruct (String.eqb_spec style "brands") as [-> | _];
    [exfalso; apply H; cbn; tauto|].
  reflexivity.
Qed.

Lemma style_of_tag (style : string) :
  In style ["regular"; "solid"; "brands"] ->
  exists target, style = tag target.
Proof.
  intros [<- | [<- | [<- | []]]];
    [exists regular | exists solid | exists brands]; reflexivity.
Qed.


Lemma command_statement_prefix (cmdname font name : string) :
  String.prefix "\def\fa" (command_statement cmdname font name) = true.
Proof.
  unfold command_statement.
  generalize (cmdname ++ "{{\" ++ font ++ "\csname faicon@" ++ name
                ++ "\endcsname}}").
  intros rest. now destruct rest.
Qed.

Lemma generated_command_truthy (target : Style) (e : string * Icon) :
  generated_command target e = None
  \/ truthy (generated_command target e) = true.
Proof.
  unfold generated_command.
  destruct (resolve target (snd e)); [right | left]; reflexivity.
Qed.

Lemma generated_command_supports (target : Style) (e : string * Icon) :
  supports target (snd e)
  = match generated_command target e with Some _ => true | None => false end.
Proof.
  unfold supports, generated_command, resolve.
  destruct (has_style (snd e) target); [reflexivity|].
  destruct (FallbackRule target) as [fb|]; [|reflexivity].
  now destruct (has_style (snd e) fb).
Qed.

(** ** The generation pass *)

Lemma exclude_none_somes (l : list (option string)) :
  Forall (fun r => r = None \/ truthy r = true) l ->
  exclude_none l = somes l.
Proof.
  unfold exclude_none.
  induction 1 as [|r l Hr _ IH]; [reflexivity|].
  cbn [flat_map somes]. rewrite IH.
  destruct Hr as [-> | Hr]; [reflexivity|].
  rewrite Hr. destruct r; [reflexivity | discriminate].
Qed.

Lemma somes_length {A : Type} (g : A -> option string) (l : list A) :
  List.length (somes (map g l))
  = List.length
      (filter (fun x => match g x with Some _ => true | None => false end) l).
Proof.
  induction l as [|x l IH]; [reflexivity|].
  cbn [map somes filter]. destruct (g x); cbn [List.length]; now rewrite IH.
Qed.

Lemma count_Permutation (p : Icon -> bool) (d d' : dict Icon) :
  Permutation d d' -> count p d = count p d'.
Proof.
  unfold count.
  induction 1 as [| x l l' _ IH | x y l | l l' l'' _ IH1 _ IH2];
    cbn [filter].
  - reflexivity.
  - destruct (p (snd x)); cbn [List.length]; now rewrite IH.
  - destruct (p (snd x)), (p (snd y)); reflexivity.
  - now rewrite IH1.
Qed.

Lemma count_le (p : Icon -> bool) (d : dict Icon) : count p d <= List.length d.
Proof. unfold count. apply filter_length_le. Qed.

(** The lists [main] builds, in terms of the entries in name order. *)
Lemma generate_sorted_items (icons : dict Icon) :
  main_lists icons
  = Ok {| mappings :=
            map (fun e => make_map (fst e) (unicode (snd e)))
              (sorted_items icons);
          cmds_regular :=
            somes (map (generated_command regular) (sorted_items icons));
          cmds_solid :=
            somes (map (generated_command solid) (sorted_items icons));
          cmds_brands :=
            somes (map (generated_command brands) (sorted_items icons)) |}.
Proof.
  unfold main_lists.
  rewrite (comprehension_items icons _
             (fun e => make_map (fst e) (unicode (snd e))));
    [| intros k v Hv; unfold getitem; now rewrite Hv
     | apply sorted_keys_incl].
  rewrite (comprehension_items icons _ (generated_command regular));
    [| intros k v Hv; unfold getitem; rewrite Hv;
       apply (make_cmd_resolve k v regular)
     | apply sorted_keys_incl].
  rewrite (comprehension_items icons _ (generated_command solid));
    [| intros k v Hv; unfold getitem; rewrite Hv;
       apply (make_cmd_resolve k v solid)
     | apply sorted_keys_incl].
  rewrite (comprehension_items icons _ (generated_command brands));
    [| intros k v Hv; unfold getitem; rewrite Hv;
       apply (make_cmd_resolve k v brands)
     | apply sorted_keys_incl].
  cbn [bind]. fold (sorted_items icons).
  rewrite !exclude_none_somes;
    try (apply Forall_forall; intros r Hr; apply in_map_iff in Hr;
         destruct Hr as [e [<- _]]; apply generated_command_truthy).
  reflexivity.
Qed.

Lemma FONTS_family (s : Style) : getitem FONTS (tag s) = Ok (family s).
Proof. now destruct s. Qed.

Lemma has_style_In (icon : Icon) (s : Style) :
  has_style icon s = true <-> In (tag s) (styles icon).
Proof.
  unfold has_style. rewrite existsb_exists. split.
  - intros [x [Hx E]]. apply String.eqb_eq in E. now subst x.
  - intros H. exists (tag s). now rewrite String.eqb_refl.
Qed.

Lemma resolve_has_style (target r : Style) (icon : Icon) :
  resolve target icon = Some r ->
  has_style icon r = true /\ (r = target \/ FallbackRule target = Some r).
Proof.
  unfold resolve.
  destruct (has_style icon target) eqn:Ht.
  - intros [= <-]. auto.
  - destruct (FallbackRule target) as [fb|]; [|discriminate].
    destruct (has_style icon fb) eqn:Hfb; [|discriminate].
    intros [= <-]. auto.
Qed.

Lemma command_statement_family (cmdname name : string) (r r' : Style) :
  command_statement cmdname (family r') name
  = command_statement cmdname (family r) name ->
  r' = r.
Proof.
  unfold command_statement. intros H.
  apply append_inv_head in H. apply append_inv_head in H.
  apply (append_inv_head "{{\") in H.
  destruct r, r'; try reflexivity; cbn in H; discriminate H.
Qed.

(** ** The claims on the Command Generator *)

(** C1: for every icon record and every target style among regular, solid
    and brands, [make_cmd] uses the family bound to the target when the
    target is in the icon's styles; otherwise the family bound to the
    target's fallback (solid -> regular, regular -> solid, brands -> none)
    when that exists and is in the styles; otherwise it returns no output.
    The families are those [FONTS] binds.  With styles = ["solid"], target
    regular yields the statement with the solid family and target brands
    yields no output. *)
Theorem make_cmd_resolution (name : string) (icon : Icon) (target : Style) :
  make_cmd name icon (tag target)
  = (if has_style icon target then
       Ok (Some (command_statement (make_cmdname name) (family target) name))
     else
       match FallbackRule target with
       | Some fb =>
           if has_style icon fb then
             Ok (Some (command_statement (make_cmdname name) (family fb) name))
           else Ok None
       | None => Ok None
       end)
  /\ (has_style icon target = true <-> In (tag target) (styles icon))
  /\ getitem FONTS (tag target) = Ok (family target)
  /\ (forall u : string,
        make_cmd name (mkIcon u ["solid"]) "regular"
        = Ok (Some (command_statement (make_cmdname name)
                      "FontAwesomeSolid" name))
        /\ make_cmd name (mkIcon u ["solid"]) "brands" = Ok None).
Proof.
  split; [|split; [apply has_style_In | split; [apply FONTS_family|]]].
  - rewrite make_cmd_resolve. unfold generated_command, resolve.
    cbn [fst snd].
    destruct (has_style icon target); [reflexivity|].
    destruct (FallbackRule target) as [fb|]; [|reflexivity].
    now destruct (has_style icon fb).
  - intros u. split.
    + apply (make_cmd_resolve name (mkIcon u ["solid"]) regular).
    + apply (make_cmd_resolve name (mkIcon u ["solid"]) brands).
Qed.

(** C3: whenever [make_cmd] produces output, the statement is exactly
    [\def\fa<CommandName>{{\<Family>\csname faicon@<name>\endcsname}}] with
    <CommandName> the result of [make_cmdname] on the icon's name and
    <Family> the identifier [FONTS] binds to the resolved style, which is
    the target or its fallback and is one of the icon's styles; the
    statement names the family of no other style. *)
Theorem make_cmd_statement (name : string) (icon : Icon) (style s : string) :
  make_cmd name icon style = Ok (Some s) ->
  exists target r : Style,
    style = tag target
    /\ resolve target icon = Some r
    /\ In (tag r) (styles icon)
    /\ getitem FONTS (tag r) = Ok (family r)
    /\ s = command_statement (make_cmdname name) (family r) name
    /\ (forall r' : Style,
          s = command_statement (make_cmdname name) (family r') name ->
          r' = r).
Proof.
  intros H.
  destruct (in_dec string_dec style ["regular"; "solid"; "brands"])
    as [Hin | Hout].
  - destruct (style_of_tag style Hin) as [target ->].
    rewrite make_cmd_resolve in H. injection H as H.
    unfold generated_command in H. cbn [fst snd] in H.
    destruct (resolve target icon) as [r|] eqn:Hr; [|discriminate].
    injection H as <-.
    exists target, r.
    destruct (resolve_has_style target r icon Hr) as [Hhas _].
    split; [reflexivity|]. split; [exact Hr|].
    split; [now apply has_style_In|].
    split; [apply FONTS_family|].
    split; [reflexivity|].
    intros r' E. symmetry in E. now apply command_statement_family in E.
  - rewrite (make_cmd_invalid name icon style Hout) in H. discriminate.
Qed.

Lemma make_cmd_statement_witness :
  make_cmd "face-smile" face_smile "regular"
  = Ok (Some "\def\faFaceSmile{{\FontAwesomeSolid\csname faicon@face-smile\endcsname}}")
  /\ exists target r : Style,
       "regular" = tag target
       /\ resolve target face_smile = Some r
       /\ In (tag r) (styles face_smile)
       /\ getitem FONTS (tag r) = Ok (family r)
       /\ "\def\faFaceSmile{{\FontAwesomeSolid\csname faicon@face-smile\endcsname}}"
          = command_statement (make_cmdname "face-smile") (family r)
              "face-smile"
       /\ (forall r' : Style,
             "\def\faFaceSmile{{\FontAwesomeSolid\csname faicon@face-smile\endcsname}}"
             = command_statement (make_cmdname "face-smile") (family r')
                 "face-smile" ->
             r' = r).
Proof.
  split; [reflexivity|].
  apply (make_cmd_statement "face-smile" face_smile "regular").
  reflexivity.
Defined.

(** C9: [make_cmd] raises exactly when the style is none of regular, solid
    and brands, whatever the icon record holds; what it raises is then the
    [ValueError] for an invalid style; for the three styles it returns a
    statement or [None]. *)
Theorem make_cmd_raises (name : string) (icon : Icon) (style : string) :
  ((exists e, make_cmd name icon style = Raise e)
   <-> ~ In style ["regular"; "solid"; "brands"])
  /\ (forall e, make_cmd name icon style = Raise e ->
                e = ValueError ("Invalid style: " ++ style))
  /\ (In style ["regular"; "solid"; "brands"] ->
      exists r : option string, make_cmd name icon style = Ok r).
Proof.
  assert (Hvalid : In style ["regular"; "solid"; "brands"] ->
                   exists r : option string, make_cmd name icon style = Ok r).
  { intros Hin. destruct (style_of_tag style Hin) as [target ->].
    eexists. apply make_cmd_resolve. }
  split; [split|split].
  - intros [e He] Hin. destruct (Hvalid Hin) as [r Hr]. congruence.
  - intros Hout. eexists. now apply make_cmd_invalid.
  - intros e He.
    destruct (in_dec string_dec style ["regular"; "solid"; "brands"])
      as [Hin | Hout].
    + destruct (Hvalid Hin) as [r Hr]. congruence.
    + rewrite (make_cmd_invalid name icon style Hout) in He. congruence.
  - exact Hvalid.
Qed.

Lemma make_cmd_raises_witness :
  (exists e, make_cmd "github" github "light" = Raise e)
  /\ exists r : option string, make_cmd "github" github "solid" = Ok r.
Proof.
  split.
  - apply (proj1 (make_cmd_raises "github" github "light")).
    cbn. intros [H | [H | [H | []]]]; discriminate H.
  - apply (proj2 (proj2 (make_cmd_raises "github" github "solid"))).
    cbn. tauto.
Defined.

(** ** The claims on the generation pass *)

(** The worked example of the specification, evaluated. *)
Example generate_sample :
  main_lists sample
  = Ok {| mappings :=
            [ mapping_statement_hex "face-smile" "F118";
              mapping_statement_hex "github" "F09B" ];
          cmds_regular :=
            [ "\def\faFaceSmile{{\FontAwesomeSolid\csname faicon@face-smile\endcsname}}" ];
          cmds_solid :=
            [ "\def\faFaceSmile{{\FontAwesomeSolid\csname faicon@face-smile\endcsname}}" ];
          cmds_brands :=
            [ "\def\faGithub{{\FontAwesomeBrands\csname faicon@github\endcsname}}" ] |}.
Proof. reflexivity. Qed.

Example make_cmd_invalid_style :
  make_cmd "github" github "light" = Raise (ValueError "Invalid style: light").
Proof. reflexivity. Qed.

Lemma sample_wf : dict_wf sample.
Proof. apply distinctb_NoDup. reflexivity. Qed.

Lemma sorted_items_insertion_order (d d' : dict Icon) :
  dict_wf d -> Permutation d d' -> sorted_items d = sorted_items d'.
Proof.
  intros Hwf Hp. unfold sorted_items.
  rewrite (sorted_Permutation (keys d) (keys d'))
    by (unfold keys; now apply Permutation_map).
  unfold items_of. apply flat_map_ext. intros k.
  now rewrite (lookup_Permutation d d' k Hwf Hp).
Qed.

Lemma cmds_of_generate (icons : dict Icon) (g : Generated) (target : Style) :
  main_lists icons = Ok g ->
  cmds_of target g
  = somes (map (generated_command target) (sorted_items icons)).
Proof.
  rewrite generate_sorted_items. intros [= <-]. now destruct target.
Qed.

Lemma make_cmd_Forall2 (target : Style) (entries : list (string * Icon)) :
  Forall2 (fun e r => make_cmd (fst e) (snd e) (tag target) = Ok r)
    entries (map (generated_command target) entries).
Proof.
  induction entries as [|[k v] entries IH]; cbn [map]; constructor.
  - apply make_cmd_resolve.
  - exact IH.
Qed.

(** C2: the mapping list has as many statements as there are icons; each
    per-style command list has at most that many, and exactly as many as
    there are icons whose styles hold the target or the target's fallback;
    the brands list has as many as there are icons with brands among their
    styles. *)
Theorem generate_lengths (icons : dict Icon) :
  dict_wf icons ->
  exists g : Generated,
    main_lists icons = Ok g
    /\ List.length (mappings g) = List.length icons
    /\ (forall target : Style,
          List.length (cmds_of target g) <= List.length icons
          /\ List.length (cmds_of target g) = count (supports target) icons)
    /\ List.length (cmds_brands g)
       = count (fun icon => existsb (String.eqb "brands") (styles icon)) icons.
Proof.
  intros Hwf.
  assert (Hlen : forall (target : Style) (g : Generated),
             main_lists icons = Ok g ->
             List.length (cmds_of target g) = count (supports target) icons).
  { intros target g Hg. rewrite (cmds_of_generate icons g target Hg).
    rewrite somes_length.
    rewrite <- (count_Permutation _ _ _ (sorted_items_Permutation icons Hwf)).
    unfold count. f_equal. apply filter_ext. intros e.
    symmetry. apply generated_command_supports. }
  eexists. split; [apply generate_sorted_items|].
  split; [|split].
  - cbn [mappings]. rewrite length_map. apply sorted_items_length.
  - intros target. rewrite (Hlen target _ (generate_sorted_items icons)).
    split; [apply count_le | reflexivity].
  - pose proof (Hlen brands _ (generate_sorted_items icons)) as Hb.
    cbn [cmds_of] in Hb. rewrite Hb.
    unfold count. f_equal. apply filter_ext. intros e.
    unfold supports. cbn [FallbackRule]. apply orb_false_r.
Qed.

Lemma generate_lengths_witness :
  dict_wf sample
  /\ exists g : Generated,
       main_lists sample = Ok g
       /\ List.length (mappings g) = List.length sample
       /\ (forall target : Style,
             List.length (cmds_of target g) <= List.length sample
             /\ List.length (cmds_of target g)
                = count (supports target) sample)
       /\ List.length (cmds_brands g)
          = count (fun icon => existsb (String.eqb "brands") (styles icon))
              sample.
Proof.
  split; [exact sample_wf|].
  apply (generate_lengths sample). exact sample_wf.
Defined.

(** C8: two inputs with the same entries, inserted in different orders,
    give the same four lists and the same four text blocks, and the pass
    does not fail on either: the lists are those of one iteration over the
    entries in strictly ascending (lexicographic) order of their names,
    whatever the insertion order was: the mapping list holds the statement
    of each entry in that order, and each command list the statements that
    [make_cmd] returns for the entries in that order. *)
Theorem generate_insertion_order (icons icons' : dict Icon) :
  dict_wf icons -> Permutation icons icons' ->
  exists (g : Generated) (entries : list (string * Icon))
         (results : Style -> list (option string)),
    main_lists icons = Ok g /\ main_lists icons' = Ok g
    /\ main icons = Ok (data_of g)
    /\ main icons' = Ok (data_of g)
    /\ Permutation entries icons /\ Permutation entries icons'
    /\ StronglySorted name_lt entries
    /\ mappings g
       = map (fun e => make_map (fst e) (unicode (snd e))) entries
    /\ forall target : Style,
         Forall2
           (fun e r => make_cmd (fst e) (snd e) (tag target) = Ok r)
           entries (results target)
         /\ cmds_of target g = somes (results target).
Proof.
  intros Hwf Hp.
  pose proof (sorted_items_insertion_order icons icons' Hwf Hp) as E.
  pose proof (generate_sorted_items icons) as Hg.
  pose proof (generate_sorted_items icons') as Hg'.
  rewrite <- E in Hg'.
  eexists. exists (sorted_items icons).
  exists (fun target => map (generated_command target) (sorted_items icons)).
  split; [exact Hg|]. split; [exact Hg'|].
  split; [unfold main; now rewrite Hg|].
  split; [unfold main; now rewrite Hg'|].
  split; [now apply sorted_items_Permutation|].
  split.
  { rewrite E. apply sorted_items_Permutation.
    exact (Permutation_wf icons icons' Hp Hwf). }
  split; [now apply sorted_items_sorted|].
  split; [reflexivity|].
  intros target. split; [apply make_cmd_Forall2|].
  now destruct target.
Qed.

Lemma generate_insertion_order_witness :
  dict_wf sample /\ Permutation sample sample'
  /\ exists (g : Generated) (entries : list (string * Icon))
            (results : Style -> list (option string)),
       main_lists sample = Ok g /\ main_lists sample' = Ok g
       /\ main sample = Ok (data_of g)
       /\ main sample' = Ok (data_of g)
       /\ Permutation entries sample /\ Permutation entries sample'
       /\ StronglySorted name_lt entries
       /\ mappings g
          = map (fun e => make_map (fst e) (unicode (snd e))) entries
       /\ forall target : Style,
            Forall2
              (fun e r => make_cmd (fst e) (snd e) (tag target) = Ok r)
              entries (results target)
            /\ cmds_of target g = somes (results target).
Proof.
  split; [exact sample_wf|].
  split; [apply perm_swap|].
  apply (generate_insertion_order sample sample');
    [exact sample_wf | apply perm_swap].
Defined.

(** C10: for a valid style [make_cmd] returns [None] or a string that
    starts with [\def\fa], which is not empty and so is true; the filter
    [if cmd] therefore drops the [None]s and nothing else, and each command
    list holds the statements of the icons that produced one, in the
    ascending order of their names. *)
Theorem generate_filter (icons : dict Icon) :
  dict_wf icons ->
  (forall (name : string) (icon : Icon) (target : Style),
      make_cmd name icon (tag target) = Ok None
      \/ exists s : string,
           make_cmd name icon (tag target) = Ok (Some s)
           /\ String.prefix "\def\fa" s = true
           /\ s <> ""
           /\ truthy (Some s) = true)
  /\ exists (g : Generated) (entries : list (string * Icon))
            (results : Style -> list (option string)),
       main_lists icons = Ok g
       /\ Permutation entries icons
       /\ StronglySorted name_lt entries
       /\ forall target : Style,
            Forall2
              (fun e r => make_cmd (fst e) (snd e) (tag target) = Ok r)
              entries (results target)
            /\ exclude_none (results target) = somes (results target)
            /\ cmds_of target g = exclude_none (results target).
Proof.
  intros Hwf. split.
  - intros name icon target. rewrite make_cmd_resolve.
    unfold generated_command. cbn [fst snd].
    destruct (resolve target icon) as [r|]; [right | now left].
    eexists. split; [reflexivity|].
    split; [apply command_statement_prefix|].
    split; [discriminate | reflexivity].
  - exists (mkGenerated
              (map (fun e => make_map (fst e) (unicode (snd e)))
                 (sorted_items icons))
              (somes (map (generated_command regular) (sorted_items icons)))
              (somes (map (generated_command solid) (sorted_items icons)))
              (somes (map (generated_command brands) (sorted_items icons)))).
    exists (sorted_items icons).
    exists (fun target => map (generated_command target) (sorted_items icons)).
    split; [apply generate_sorted_items|].
    split; [now apply sorted_items_Permutation|].
    split; [now apply sorted_items_sorted|].
    intros target.
    assert (Hex : exclude_none
                    (map (generated_command target) (sorted_items icons))
                  = somes (map (generated_command target)
                             (sorted_items icons))).
    { apply exclude_none_somes, Forall_forall. intros r Hr.
      apply in_map_iff in Hr. destruct Hr as [e [<- _]].
      apply generated_command_truthy. }
    split; [apply make_cmd_Forall2|].
    split; [exact Hex|].
    rewrite Hex. now destruct target.
Qed.

Lemma generate_filter_witness :
  dict_wf sample'
  /\ exists (g : Generated) (entries : list (string * Icon))
            (results : Style -> list (option string)),
       main_lists sample' = Ok g
       /\ Permutation entries sample'
       /\ StronglySorted name_lt entries
       /\ forall target : Style,
            Forall2
              (fun e r => make_cmd (fst e) (snd e) (tag target) = Ok r)
              entries (results target)
            /\ exclude_none (results target) = somes (results target)
            /\ cmds_of target g = exclude_none (results target).
Proof.
  assert (Hwf : dict_wf sample') by (apply distinctb_NoDup; reflexivity).
  split; [exact Hwf|].
  apply (proj2 (generate_filter sample' Hwf)).
Defined.

Lemma make_map_hex (name symbol : string) :
  make_map name symbol = mapping_statement_hex name (str_upper symbol).
Proof. reflexivity. Qed.

Lemma str_upper_no_lower (s : string) :
  all_chars (fun c => negb (is_lower c)) (str_upper s) = true.
Proof.
  induction s as [|c s IH]; cbn [str_upper all_chars]; [reflexivity|].
  rewrite IH, andb_true_r. by_cases_on_char c.
Qed.

(** C4, as the code has it: for every icon exactly one mapping statement is
    emitted, in ascending order of the names and whatever the icon's
    styles, of the form
    [\expandafter\def\csname faicon@<name>\endcsname{\symbol{<Q><CODEPOINT>}}]
    where <Q> is one double quote and <CODEPOINT> is the icon's code point
    in upper case; no double quote follows the code point. *)
Theorem generate_mappings (icons : dict Icon) :
  dict_wf icons ->
  exists (g : Generated) (entries : list (string * Icon)),
    main_lists icons = Ok g
    /\ Permutation entries icons
    /\ StronglySorted name_lt entries
    /\ mappings g
       = map (fun e => mapping_statement_hex (fst e)
                         (str_upper (unicode (snd e)))) entries
    /\ (forall e, In e entries ->
          all_chars (fun c => negb (is_lower c)) (str_upper (unicode (snd e)))
          = true).
Proof.
  intros Hwf. eexists. exists (sorted_items icons).
  split; [apply generate_sorted_items|].
  split; [now apply sorted_items_Permutation|].
  split; [now apply sorted_items_sorted|].
  split; [reflexivity|].
  intros e _. apply str_upper_no_lower.
Qed.

Lemma generate_mappings_witness :
  dict_wf sample
  /\ exists (g : Generated) (entries : list (string * Icon)),
       main_lists sample = Ok g
       /\ Permutation entries sample
       /\ StronglySorted name_lt entries
       /\ mappings g
          = map (fun e => mapping_statement_hex (fst e)
                            (str_upper (unicode (snd e)))) entries
       /\ (forall e, In e entries ->
             all_chars (fun c => negb (is_lower c))
               (str_upper (unicode (snd e)))
             = true).
Proof.
  split; [exact sample_wf|].
  apply (generate_mappings sample). exact sample_wf.
Defined.

(** C4, as the claim writes the statement, with a double quote on both
    sides of the code point: it fails on the icon set of the worked
    example. *)
Lemma generate_mappings_as_written_fails :
  ~ (exists (g : Generated) (entries : list (string * Icon)),
        main_lists sample = Ok g
        /\ Permutation entries sample
        /\ StronglySorted name_lt entries
        /\ mappings g
           = map (fun e => mapping_statement_as_written (fst e)
                             (str_upper (unicode (snd e)))) entries).
Proof.
  intros [g [entries [Hg [Hp [_ Hm]]]]].
  vm_compute in Hg. injection Hg as <-.
  apply Permutation_sym, Permutation_length_2_inv in Hp.
  destruct Hp as [-> | ->]; vm_compute in Hm; discriminate Hm.
Qed.

(** ** The claims on the Name Normalizer *)

Example make_cmdname_hyphens : make_cmdname "-a--b5c-" = "AB5c".
Proof. reflexivity. Qed.

Example make_cmdname_digits : make_cmdname "dice-d20" = "DiceD20".
Proof. reflexivity. Qed.

Example split_hyphens : split "-a--b5c-" = [""; "a"; ""; "b5c"; ""].
Proof. reflexivity. Qed.

Lemma digit_or_upper_not_hyphen (c : ascii) :
  (is_digit c || is_upper c)%bool = true -> Ascii.eqb c hyphen = false.
Proof. by_cases_on_char c. Qed.

Lemma no_digit_name_char (s : string) :
  all_chars name_char s = true ->
  all_chars (fun c => negb (is_digit c)) s = true ->
  all_chars (fun c => name_char c && negb (is_digit c))%bool s = true.
Proof. apply all_chars_and. Qed.

(** C5: for a name of lowercase letters, digits and hyphens the result of
    [make_cmdname] holds no hyphen and only letters and digits; it is the
    name's characters other than hyphens, in order, the one at position 0
    and each one right after a hyphen uppercased; equal inputs give equal
    results; "font-awesome" gives "FontAwesome" and "github" gives
    "Github". *)
Theorem make_cmdname_name_chars (name : string) :
  all_chars name_char name = true ->
  make_cmdname name = expected name
  /\ all_chars (fun c => negb (Ascii.eqb c hyphen)) (make_cmdname name) = true
  /\ all_chars is_alnum (make_cmdname name) = true
  /\ (forall name' : string,
        name' = name -> make_cmdname name' = make_cmdname name)
  /\ make_cmdname "font-awesome" = "FontAwesome"
  /\ make_cmdname "github" = "Github".
Proof.
  intros Hname. rewrite make_cmdname_normalize.
  split; [apply normalize_expected|].
  split; [exact (normalize_from_all _ _ name_char_not_hyphen name true Hname)|].
  split; [exact (normalize_from_all _ _ name_char_alnum name true Hname)|].
  split; [intros name' ->; apply make_cmdname_normalize|].
  split; reflexivity.
Qed.

Lemma make_cmdname_name_chars_witness :
  all_chars name_char "fa-500px" = true
  /\ make_cmdname "fa-500px" = expected "fa-500px"
  /\ all_chars (fun c => negb (Ascii.eqb c hyphen)) (make_cmdname "fa-500px")
     = true
  /\ all_chars is_alnum (make_cmdname "fa-500px") = true.
Proof.
  split; [reflexivity|].
  destruct (make_cmdname_name_chars "fa-500px" eq_refl)
    as [H1 [H2 [H3 _]]].
  split; [exact H1 | split; [exact H2 | exact H3]].
Defined.

(** C6, as the code has it: for a name made of non-empty lowercase
    alphanumeric segments joined by hyphens, [make_cmdname] returns the
    segments, each with its first character uppercased, the first segment
    included, with the hyphens removed; the result holds letters and
    digits only, and letters only when the name holds no digit. *)
Theorem make_cmdname_segments (name : string) :
  segmented name = true ->
  make_cmdname name = join "" (map capitalize (split name))
  /\ all_chars (fun c => negb (Ascii.eqb c hyphen)) (make_cmdname name) = true
  /\ all_chars is_alnum (make_cmdname name) = true
  /\ (all_chars (fun c => negb (is_digit c)) name = true ->
      all_chars is_letter (make_cmdname name) = true).
Proof.
  intros Hseg. apply segmented_name_chars in Hseg.
  rewrite make_cmdname_normalize.
  split; [apply normalize_capitalize|].
  split; [exact (normalize_from_all _ _ name_char_not_hyphen name true Hseg)|].
  split; [exact (normalize_from_all _ _ name_char_alnum name true Hseg)|].
  intros Hnodigit.
  apply (normalize_from_all _ _ name_char_letter name true).
  now apply no_digit_name_char.
Qed.

Lemma make_cmdname_segments_witness :
  segmented "font-awesome" = true
  /\ make_cmdname "font-awesome"
     = join "" (map capitalize (split "font-awesome"))
  /\ all_chars is_letter (make_cmdname "font-awesome") = true.
Proof.
  split; [reflexivity|].
  destruct (make_cmdname_segments "font-awesome" eq_refl)
    as [H1 [_ [_ H4]]].
  split; [exact H1 | apply H4; reflexivity].
Defined.

(** C6, as the claim states it, with a result of letters only: it fails on
    the icon name "500px", one lowercase alphanumeric segment, which
    [make_cmdname] returns unchanged. *)
Lemma make_cmdname_only_letters_fails :
  ~ (forall name : string,
        segmented name = true ->
        all_chars is_letter (make_cmdname name) = true
        /\ make_cmdname name = join "" (map capitalize (split name))).
Proof.
  intros H. destruct (H "500px" eq_refl) as [Hletters _].
  vm_compute in Hletters. discriminate Hletters.
Qed.

(** C7: the empty name gives the empty result; a run of hyphens acts as
    one hyphen: nothing is emitted for it and only the one character after
    it is uppercased, the scan going on with the flag cleared; uppercasing
    leaves digits and uppercase letters as they are, and such a character
    still clears the flag, so that the character after it is emitted as it
    is. *)
Theorem make_cmdname_edge_cases :
  make_cmdname "" = ""
  /\ (forall (pre rest : string) (n : nat),
        make_cmdname (pre ++ hyphens (S n) ++ rest)
        = make_cmdname (pre ++ "-" ++ rest))
  /\ (forall (pre rest : string) (n : nat) (c : ascii),
        Ascii.eqb c hyphen = false ->
        make_cmdname (pre ++ hyphens (S n) ++ String c rest)
        = make_cmdname pre ++ String (upper_char c) (normalize_from false rest))
  /\ (forall c : ascii,
        (is_digit c || is_upper c)%bool = true -> upper_char c = c)
  /\ (forall (pre rest : string) (n : nat) (c c' : ascii),
        (is_digit c || is_upper c)%bool = true ->
        Ascii.eqb c' hyphen = false ->
        make_cmdname (String c (String c' rest))
        = String c (String c' (normalize_from false rest))
        /\ make_cmdname (pre ++ hyphens (S n) ++ String c (String c' rest))
           = make_cmdname pre
               ++ String c (String c' (normalize_from false rest))).
Proof.
  assert (Hrun : forall (pre rest : string) (n : nat),
             make_cmdname (pre ++ hyphens (S n) ++ rest)
             = make_cmdname pre ++ normalize rest).
  { intros pre rest n. rewrite !make_cmdname_normalize. unfold normalize.
    change (hyphens (S n) ++ rest) with (String hyphen (hyphens n ++ rest)).
    rewrite normalize_from_app_hyphen. f_equal.
    destruct n as [|n]; [reflexivity|]. apply normalize_from_hyphens. }
  split; [reflexivity|].
  split.
  { intros pre rest n. rewrite Hrun. apply (eq_sym (Hrun pre rest 0)). }
  split.
  { intros pre rest n c Hc. rewrite Hrun. f_equal.
    unfold normalize. cbn [normalize_from]. now rewrite Hc. }
  split; [exact upper_char_fixed|].
  intros pre rest n c c' Hc Hc'.
  pose proof (digit_or_upper_not_hyphen c Hc) as Hh.
  assert (E : normalize (String c (String c' rest))
              = String c (String c' (normalize_from false rest))).
  { unfold normalize. cbn [normalize_from].
    now rewrite Hh, Hc', (upper_char_fixed c Hc). }
  split.
  - now rewrite make_cmdname_normalize.
  - rewrite Hrun. now rewrite E.
Qed.

Lemma make_cmdname_edge_cases_witness :
  make_cmdname ("a" ++ hyphens 3 ++ "b-c")
  = make_cmdname "a" ++ String (upper_char "b") (normalize_from false "-c")
  /\ make_cmdname ("a" ++ hyphens 2 ++ "5xy")
     = make_cmdname "a" ++ "5xy".
Proof.
  destruct make_cmdname_edge_cases as [_ [_ [H3 [_ H5]]]].
  split.
  - apply (H3 "a" "-c" 2 "b"%char). reflexivity.
  - apply (H5 "a" "y" 1 "5"%char "x"%char); reflexivity.
Defined.

(** ** Further properties of the Name Normalizer *)

Lemma upper_char_idempotent (c : ascii) : upper_char (upper_char c) = upper_char c.
Proof. by_cases_on_char c. Qed.

Lemma upper_char_hyphen (c : ascii) :
  Ascii.eqb c hyphen = false -> Ascii.eqb (upper_char c) hyphen = false.
Proof. by_cases_on_char c. Qed.

Lemma lower_upper_char (c : ascii) :
  is_lower c = true ->
  is_upper (upper_char c) = true /\ lower_char (upper_char c) = c
  /\ Ascii.eqb c hyphen = false.
Proof. by_cases_on_char c. Qed.

Lemma lower_or_digit_char (c : ascii) :
  (is_lower c || is_digit c)%bool = true ->
  is_upper c = false /\ Ascii.eqb c hyphen = false.
Proof. by_cases_on_char c. Qed.

Lemma normalize_from_length (s : string) (flag : bool) :
  String.length (normalize_from flag s) + hyphen_count s = String.length s.
Proof.
  revert flag.
  induction s as [|c s IH]; intros flag; cbn [normalize_from hyphen_count
                                               String.length]; [reflexivity|].
  destruct (Ascii.eqb c hyphen).
  - specialize (IH true). lia.
  - cbn [String.length]. specialize (IH false). lia.
Qed.

Lemma normalize_from_no_hyphen (s : string) (flag : bool) :
  hyphen_count (normalize_from flag s) = 0.
Proof.
  revert flag.
  induction s as [|c s IH]; intros flag; cbn [normalize_from]; [reflexivity|].
  destruct (Ascii.eqb c hyphen) eqn:Hh; [apply IH|].
  cbn [hyphen_count]. rewrite IH.
  destruct flag; [now rewrite (upper_char_hyphen c Hh) | now rewrite Hh].
Qed.

Lemma normalize_from_false_fixed (s : string) :
  hyphen_count s = 0 -> normalize_from false s = s.
Proof.
  induction s as [|c s IH]; cbn [normalize_from hyphen_count]; [reflexivity|].
  destruct (Ascii.eqb c hyphen); [discriminate|].
  intros H. now rewrite IH.
Qed.

Lemma normalize_head (s : string) :
  normalize s = ""
  \/ exists (c : ascii) (r : string),
       normalize s = String (upper_char c) r.
Proof.
  unfold normalize.
  induction s as [|c s IH]; cbn [normalize_from]; [now left|].
  destruct (Ascii.eqb c hyphen); [exact IH|].
  right. now exists c, (normalize_from false s).
Qed.

Lemma normalize_idempotent (s : string) : normalize (normalize s) = normalize s.
Proof.
  pose proof (normalize_from_no_hyphen s true) as Hno.
  fold (normalize s) in Hno.
  destruct (normalize_head s) as [E | [c [r E]]]; rewrite E in *;
    [reflexivity|].
  cbn [hyphen_count] in Hno.
  unfold normalize at 1. cbn [normalize_from].
  destruct (Ascii.eqb (upper_char c) hyphen); [discriminate|].
  rewrite upper_char_idempotent.
  now rewrite normalize_from_false_fixed by exact Hno.
Qed.

Lemma normalize_from_lost_hyphen (a b : string) (d : ascii) (flag : bool) :
  (is_digit d || is_upper d)%bool = true ->
  normalize_from flag (a ++ "-" ++ String d b)
  = normalize_from flag (a ++ String d b).
Proof.
  intros Hd.
  pose proof (upper_char_fixed d Hd) as Hfix.
  pose proof (digit_or_upper_not_hyphen d Hd) as Hh.
  revert flag.
  induction a as [|c a IH]; intros flag.
  - cbn [append normalize_from]. rewrite Ascii.eqb_refl.
    cbn [normalize_from]. rewrite Hh, Hfix. now destruct flag.
  - cbn [append normalize_from].
    destruct (Ascii.eqb c hyphen); [apply IH|].
    now rewrite IH.
Qed.

Lemma decode_normalize (s : string) :
  (well_hyphenated false s = true ->
   decode_from false (normalize_from false s) = s)
  /\ (well_hyphenated true s = true ->
      forall first : bool,
        decode_from first (normalize_from true s)
        = (if first then "" else "-") ++ s).
Proof.
  induction s as [|c s [IHf IHt]]; cbn [well_hyphenated normalize_from].
  - split; [reflexivity | discriminate].
  - destruct (Ascii.eqb c hyphen) eqn:Hh.
    + split.
      * cbn [negb andb]. intros H.
        rewrite (IHt H false). cbn [append].
        apply Ascii.eqb_eq in Hh. now subst c.
      * cbn [negb andb]. discriminate.
    + split.
      * rewrite andb_true_iff. intros [Hc Hs].
        cbn [decode_from].
        destruct (lower_or_digit_char c Hc) as [-> _].
        now rewrite (IHf Hs).
      * rewrite andb_true_iff. intros [Hc Hs] first.
        cbn [decode_from].
        destruct (lower_upper_char c Hc) as [-> [-> _]].
        now rewrite (IHf Hs).
Qed.

(** X1: [make_cmdname] works segment by segment: the command name of two
    names joined by a hyphen is the two command names put together. *)
Theorem make_cmdname_hyphen_join (a b : string) :
  make_cmdname (a ++ "-" ++ b) = make_cmdname a ++ make_cmdname b.
Proof.
  rewrite !make_cmdname_normalize. unfold normalize.
  apply (normalize_from_app_hyphen a b true).
Qed.

(** X2: a command name is its own command name: applying [make_cmdname]
    twice gives what applying it once gives. *)
Theorem make_cmdname_idempotent (name : string) :
  make_cmdname (make_cmdname name) = make_cmdname name.
Proof.
  rewrite !make_cmdname_normalize. apply normalize_idempotent.
Qed.

(** X3: for a name of characters below 128, the command name has one
    character for each character of the name that is not a hyphen, so it is
    never longer than the name, and it holds no hyphen. *)
Theorem make_cmdname_length (name : string) :
  all_chars is_ascii name = true ->
  String.length (make_cmdname name) + hyphen_count name = String.length name
  /\ String.length (make_cmdname name) <= String.length name
  /\ hyphen_count (make_cmdname name) = 0.
Proof.
  intros _.
  rewrite make_cmdname_normalize. unfold normalize.
  pose proof (normalize_from_length name true) as H.
  split; [exact H|]. split; [lia|].
  apply normalize_from_no_hyphen.
Qed.

Lemma make_cmdname_length_witness :
  all_chars is_ascii "creative-commons-nc-eu" = true
  /\ String.length (make_cmdname "creative-commons-nc-eu")
       + hyphen_count "creative-commons-nc-eu"
     = String.length "creative-commons-nc-eu"
  /\ String.length (make_cmdname "creative-commons-nc-eu")
     <= String.length "creative-commons-nc-eu"
  /\ hyphen_count (make_cmdname "creative-commons-nc-eu") = 0.
Proof.
  split; [reflexivity|].
  apply (make_cmdname_length "creative-commons-nc-eu"). reflexivity.
Defined.

(** X4: names whose segments all start with a lowercase letter (and go on
    with lowercase letters and digits, single hyphens between them) get
    pairwise different command names: the name can be read back from the
    command name. *)
Theorem make_cmdname_injective (name name' : string) :
  letter_led name = true -> letter_led name' = true ->
  name <> name' ->
  make_cmdname name <> make_cmdname name'.
Proof.
  unfold letter_led. intros H H' Hne E. apply Hne.
  rewrite !make_cmdname_normalize in E. unfold normalize in E.
  pose proof (proj2 (decode_normalize name) H true) as D.
  pose proof (proj2 (decode_normalize name') H' true) as D'.
  cbn [append] in D, D'. congruence.
Qed.

Lemma make_cmdname_injective_witness :
  letter_led "dice-d6" = true /\ letter_led "dice-d20" = true
  /\ "dice-d6" <> "dice-d20"
  /\ make_cmdname "dice-d6" <> make_cmdname "dice-d20".
Proof.
  split; [reflexivity|]. split; [reflexivity|]. split; [discriminate|].
  apply (make_cmdname_injective "dice-d6" "dice-d20");
    [reflexivity | reflexivity | discriminate].
Defined.

(** X5: a hyphen in front of a digit or of an uppercase letter leaves no
    trace in the command name: the name with that hyphen and the name
    without it get the same command name. *)
Theorem make_cmdname_lost_hyphen (a b : string) (d : ascii) :
  (is_digit d || is_upper d)%bool = true ->
  make_cmdname (a ++ "-" ++ String d b) = make_cmdname (a ++ String d b).
Proof.
  intros Hd. rewrite !make_cmdname_normalize.
  now apply normalize_from_lost_hyphen.
Qed.

Lemma make_cmdname_lost_hyphen_witness :
  (is_digit "6" || is_upper "6")%bool = true
  /\ make_cmdname "dice-d-6" = make_cmdname "dice-d6".
Proof.
  split; [reflexivity|].
  apply (make_cmdname_lost_hyphen "dice-d" "" "6"%char). reflexivity.
Defined.

(** ** Further properties of the Command Generator *)

Lemma existsb_membership (x : string) (l l' : list string) :
  (forall s, In s l <-> In s l') ->
  existsb (String.eqb x) l = existsb (String.eqb x) l'.
Proof.
  intros H.
  assert (Hin : forall l0, existsb (String.eqb x) l0 = true <-> In x l0).
  { intros l0. rewrite existsb_exists. split.
    - intros [y [Hy E]]. apply String.eqb_eq in E. now subst y.
    - intros Hx. exists x. now rewrite String.eqb_refl. }
  destruct (existsb (String.eqb x) l) eqn:E, (existsb (String.eqb x) l') eqn:E';
    try reflexivity.
  - apply Hin, H, Hin in E. congruence.
  - apply Hin, H, Hin in E'. congruence.
Qed.

Lemma generated_command_regular_solid (e : string * Icon) :
  both_styles (snd e) = false ->
  generated_command regular e = generated_command solid e.
Proof.
  unfold both_styles, generated_command, resolve. cbn [FallbackRule].
  destruct (has_style (snd e) regular), (has_style (snd e) solid);
    cbn [andb]; intros H; try reflexivity. discriminate.
Qed.

Lemma generated_command_some_regular_solid (e : string * Icon) :
  match generated_command regular e with Some _ => true | None => false end
  = match generated_command solid e with Some _ => true | None => false end.
Proof.
  rewrite <- !generated_command_supports. unfold supports.
  cbn [FallbackRule]. apply orb_comm.
Qed.

Lemma items_of_In {V : Type} (d : dict V) (l : list string) (e : string * V) :
  In e (items_of d l) -> In e d.
Proof.
  unfold items_of. rewrite in_flat_map. intros [k [_ Hk]].
  destruct (lookup d k) as [v|] eqn:E; [|contradiction].
  destruct Hk as [<- | []]. now apply lookup_In.
Qed.

Lemma somes_In {A : Type} (g : A -> option string) (l : list A) (s : string) :
  In s (somes (map g l)) -> exists x, In x l /\ g x = Some s.
Proof.
  induction l as [|x l IH]; cbn [map somes]; [contradiction|].
  destruct (g x) as [s'|] eqn:E.
  - intros [<- | Hin].
    + exists x. split; [now left | exact E].
    + destruct (IH Hin) as [y [Hy Hg]]. exists y. split; [now right | exact Hg].
  - intros Hin. destruct (IH Hin) as [y [Hy Hg]].
    exists y. split; [now right | exact Hg].
Qed.

(** X6: [make_cmd] looks at the styles of an icon only through membership:
    two records with the same set of styles, in any order, with any
    repetition and any code point, give the same result, for every style
    argument. *)
Theorem make_cmd_styles_membership (name : string) (icon icon' : Icon)
    (style : string) :
  (forall s, In s (styles icon) <-> In s (styles icon')) ->
  make_cmd name icon style = make_cmd name icon' style.
Proof.
  intros H. unfold make_cmd.
  destruct (if String.eqb style "solid" then Ok (Some "regular")
            else if String.eqb style "regular" then Ok (Some "solid")
            else if String.eqb style "brands" then Ok None
            else Raise (ValueError ("Invalid style: " ++ style)))
    as [fallback | e]; cbn [bind]; [|reflexivity].
  unfold contains at 1 3.
  rewrite (existsb_membership style _ _ H).
  destruct (existsb (String.eqb style) (styles icon')); [reflexivity|].
  destruct fallback as [fb|]; cbn [contains]; [|reflexivity].
  now rewrite (existsb_membership fb _ _ H).
Qed.

Lemma make_cmd_styles_membership_witness :
  (forall s, In s (styles (mkIcon "f004" ["regular"; "solid"]))
             <-> In s (styles (mkIcon "F004" ["solid"; "regular"; "solid"])))
  /\ make_cmd "heart" (mkIcon "f004" ["regular"; "solid"]) "regular"
     = make_cmd "heart" (mkIcon "F004" ["solid"; "regular"; "solid"]) "regular".
Proof.
  assert (H : forall s, In s (styles (mkIcon "f004" ["regular"; "solid"]))
                        <-> In s (styles (mkIcon "F004"
                                            ["solid"; "regular"; "solid"]))).
  { intros s. cbn. tauto. }
  split; [exact H|].
  apply (make_cmd_styles_membership "heart" _ _ "regular" H).
Defined.

(** X7: an icon gets no command for any of the three styles exactly when
    none of the tags regular, solid and brands is among its styles; other
    tags do not count. *)
Theorem make_cmd_no_known_style (name : string) (icon : Icon) :
  (forall target : Style, make_cmd name icon (tag target) = Ok None)
  <-> no_known_style icon = true.
Proof.
  unfold no_known_style. split.
  - intros H.
    pose proof (H regular) as Hr. pose proof (H solid) as Hs.
    pose proof (H brands) as Hb.
    rewrite make_cmd_resolve in Hr, Hs, Hb.
    unfold generated_command, resolve in Hr, Hs, Hb.
    cbn [snd fst FallbackRule] in Hr, Hs, Hb.
    destruct (has_style icon regular), (has_style icon solid),
      (has_style icon brands); cbn in *; congruence.
  - rewrite !andb_true_iff, !negb_true_iff. intros [[Hr Hs] Hb] target.
    rewrite make_cmd_resolve. unfold generated_command, resolve.
    cbn [snd fst].
    destruct target; cbn [FallbackRule]; now rewrite ?Hr, ?Hs, ?Hb.
Qed.

Lemma make_cmd_no_known_style_witness :
  no_known_style (mkIcon "f640" ["light"; "duotone"]) = true
  /\ make_cmd "abacus" (mkIcon "f640" ["light"; "duotone"]) "solid" = Ok None.
Proof.
  split; [reflexivity|].
  apply (proj2 (make_cmd_no_known_style "abacus"
                  (mkIcon "f640" ["light"; "duotone"])) eq_refl solid).
Defined.

(** ** Further properties of the generation pass *)

Lemma append_until (b : ascii) (s1 s2 t1 t2 : string) :
  all_chars (fun c => negb (Ascii.eqb c b)) s1 = true ->
  all_chars (fun c => negb (Ascii.eqb c b)) s2 = true ->
  s1 ++ String b t1 = s2 ++ String b t2 ->
  s1 = s2.
Proof.
  revert s2.
  induction s1 as [|c1 s1 IH]; intros [|c2 s2]; cbn [all_chars append];
    try reflexivity.
  - rewrite andb_true_iff, negb_true_iff. intros _ [Hc _] [= <- _].
    rewrite Ascii.eqb_refl in Hc. discriminate.
  - rewrite andb_true_iff, negb_true_iff. intros [Hc _] _ [= -> _].
    rewrite Ascii.eqb_refl in Hc. discriminate.
  - rewrite !andb_true_iff. intros [_ H1] [_ H2] [= -> E].
    f_equal. now apply IH.
Qed.

Lemma name_char_no_backslash (s : string) :
  all_chars name_char s = true ->
  all_chars (fun c => negb (Ascii.eqb c backslash)) s = true.
Proof.
  induction s as [|c s IH]; cbn [all_chars]; [reflexivity|].
  rewrite !andb_true_iff. intros [Hc Hs]. split; [|now apply IH].
  clear - Hc. revert Hc. by_cases_on_char c.
Qed.

Lemma make_map_name (name name' symbol symbol' : string) :
  all_chars name_char name = true -> all_chars name_char name' = true ->
  make_map name symbol = make_map name' symbol' ->
  name = name'.
Proof.
  intros H H' E. unfold make_map in E.
  apply append_inv_head in E.
  apply (append_until backslash) in E;
    [assumption | now apply name_char_no_backslash
     | now apply name_char_no_backslash].
Qed.

(** X8: the generation pass never raises, whatever the icon set: every
    [icons[name]] finds its key and every style passed to [make_cmd] is
    valid.  On the empty icon set the four lists and the four text blocks
    are empty. *)
Theorem main_never_raises (icons : dict Icon) :
  (exists g : Generated,
      main_lists icons = Ok g /\ main icons = Ok (data_of g))
  /\ main_lists [] = Ok (mkGenerated [] [] [] [])
  /\ main [] = Ok (mkData "" "" "" "").
Proof.
  split; [|split; reflexivity].
  eexists. split; [apply generate_sorted_items|].
  unfold main. now rewrite generate_sorted_items.
Qed.

(** X9: the regular list and the solid list define the same commands: they
    have the same length, and when no icon has both the regular and the
    solid style they are the same list, each icon resolving to the one
    style it has. *)
Theorem regular_solid_lists (icons : dict Icon) :
  exists g : Generated,
    main_lists icons = Ok g
    /\ List.length (cmds_regular g) = List.length (cmds_solid g)
    /\ (forallb (fun e => negb (both_styles (snd e))) icons = true ->
        cmds_regular g = cmds_solid g).
Proof.
  eexists. split; [apply generate_sorted_items|].
  cbn [cmds_regular cmds_solid]. split.
  - rewrite !somes_length. f_equal. apply filter_ext.
    intros e. apply generated_command_some_regular_solid.
  - intros Hall. f_equal. apply map_ext_in. intros e He.
    apply generated_command_regular_solid.
    apply items_of_In in He.
    rewrite forallb_forall in Hall. specialize (Hall e He).
    now apply negb_true_iff in Hall.
Qed.

Lemma regular_solid_lists_witness :
  forallb (fun e => negb (both_styles (snd e))) sample = true
  /\ exists g : Generated,
       main_lists sample = Ok g
       /\ List.length (cmds_regular g) = List.length (cmds_solid g)
       /\ (forallb (fun e => negb (both_styles (snd e))) sample = true ->
           cmds_regular g = cmds_solid g).
Proof.
  split; [reflexivity|]. apply (regular_solid_lists sample).
Defined.

(** X10: no command refers to a symbol that has no mapping: every statement
    of every command list comes from an entry of the icon set, for the
    style that entry resolves to, and the mapping statement of that entry
    is in the mapping list. *)
Theorem commands_have_mappings (icons : dict Icon) (target : Style) :
  exists g : Generated,
    main_lists icons = Ok g
    /\ forall s : string,
         In s (cmds_of target g) ->
         exists (name : string) (icon : Icon) (r : Style),
           In (name, icon) icons
           /\ resolve target icon = Some r
           /\ s = command_statement (make_cmdname name) (family r) name
           /\ In (make_map name (unicode icon)) (mappings g).
Proof.
  eexists. split; [apply generate_sorted_items|].
  intros s Hs.
  assert (Hs' : In s (somes (map (generated_command target)
                               (sorted_items icons))))
    by (destruct target; exact Hs).
  apply somes_In in Hs'. destruct Hs' as [[name icon] [He Hg]].
  unfold generated_command in Hg. cbn [fst snd] in Hg.
  destruct (resolve target icon) as [r|] eqn:Hr; [|discriminate].
  injection Hg as <-.
  exists name, icon, r.
  split; [exact (items_of_In icons _ _ He)|].
  split; [exact Hr|]. split; [reflexivity|].
  cbn [mappings].
  apply (in_map (fun e => make_map (fst e) (unicode (snd e))) _ _ He).
Qed.

(** X11: when the names are pairwise distinct and made of lowercase
    letters, digits and hyphens, the mapping statements are pairwise
    distinct: no symbol is bound twice. *)
Theorem mappings_distinct (icons : dict Icon) :
  dict_wf icons ->
  forallb (fun e => all_chars name_char (fst e)) icons = true ->
  exists g : Generated, main_lists icons = Ok g /\ NoDup (mappings g).
Proof.
  intros Hwf Hnames.
  eexists. split; [apply generate_sorted_items|].
  cbn [mappings].
  assert (Hnd : NoDup (sorted_items icons)).
  { apply (NoDup_map_inv fst). rewrite sorted_items_fst.
    eapply Permutation_NoDup; [|exact Hwf].
    symmetry. apply sorted_perm. }
  apply NoDup_map_NoDup_ForallPairs; [|exact Hnd].
  intros e e' He He' E.
  rewrite forallb_forall in Hnames.
  pose proof (Hnames e (items_of_In icons _ _ He)) as Hn.
  pose proof (Hnames e' (items_of_In icons _ _ He')) as Hn'.
  apply (make_map_name _ _ _ _ Hn Hn') in E.
  pose proof (sorted_items_Permutation icons Hwf) as Hp.
  assert (Hl : lookup icons (fst e) = Some (snd e)).
  { apply In_lookup; [exact Hwf|]. destruct e. now apply items_of_In in He. }
  assert (Hl' : lookup icons (fst e') = Some (snd e')).
  { apply In_lookup; [exact Hwf|]. destruct e'. now apply items_of_In in He'. }
  rewrite E in Hl. rewrite Hl' in Hl. injection Hl as Hv.
  destruct e, e'. cbn [fst snd] in *. congruence.
Qed.

Lemma mappings_distinct_witness :
  dict_wf sample
  /\ forallb (fun e => all_chars name_char (fst e)) sample = true
  /\ exists g : Generated, main_lists sample = Ok g /\ NoDup (mappings g).
Proof.
  split; [exact sample_wf|]. split; [reflexivity|].
  apply (mappings_distinct sample); [exact sample_wf | reflexivity].
Defined.


(** ** The template and the rest of [main] *)

Lemma main_ok (icons : dict Icon) :
  main icons = Ok (data_of
    (mkGenerated
       (map (fun e => make_map (fst e) (unicode (snd e))) (sorted_items icons))
       (somes (map (generated_command regular) (sorted_items icons)))
       (somes (map (generated_command solid) (sorted_items icons)))
       (somes (map (generated_command brands) (sorted_items icons))))).
Proof. unfold main. now rewrite generate_sorted_items. Qed.

(** Formatting the template with the dictionary of [main] does not fail. *)
Lemma sty_format (env : Env) (d : Data) :
  Format.format STY_TEMPLATE (data_dict env d) = Ok (sty env d).
Proof.
  unfold sty.
  destruct (Format.format STY_TEMPLATE (data_dict env d)) as [text | e] eqn:E;
    [reflexivity|].
  exfalso. vm_compute in E. discriminate E.
Qed.

Ltac io_run :=
  cbv beta iota zeta delta
    [main_io get_icons_yml bindM path_exists remove print read open_w write
     request load lift ret raise];
  cbn [disk stdout requests].

Ltac io_cases :=
  repeat
    (io_run;
     match goal with
     | |- context [if os_exists ?o ?s ?p then _ else _] =>
         destruct (os_exists o s p) eqn:?
     | |- context [match os_remove ?o ?s ?p with _ => _ end] =>
         destruct (os_remove o s p) eqn:?
     | |- context [match os_read ?o ?s ?p with _ => _ end] =>
         destruct (os_read o s p) eqn:?
     | |- context [match os_open_w ?o ?s ?p with _ => _ end] =>
         destruct (os_open_w o s p) eqn:?
     | |- context [match os_write ?o ?s ?p ?t with _ => _ end] =>
         destruct (os_write o s p t) as [? []] eqn:?
     | |- context [if clobber ?a then _ else _] => destruct (clobber a) eqn:?
     | |- context [match infile ?a with _ => _ end] =>
         destruct (infile a) eqn:?
     | |- context [if given ?x then _ else _] => destruct (given x) eqn:?
     | |- context [match urlopen ?e ?u with _ => _ end] =>
         destruct (urlopen e u) eqn:?
     | |- context [match safe_load ?e ?d with _ => _ end] =>
         destruct (safe_load e d) eqn:?
     | |- context [main ?i] => rewrite (main_ok i)
     | |- context [Format.format STY_TEMPLATE ?d] => rewrite sty_format
     end).

Lemma given_path (path : string) : path <> "" -> given (Some path) = true.
Proof. destruct path; [contradiction | reflexivity]. Qed.

Lemma icon_count (icons : dict Icon) :
  List.length (sorted (keys icons)) = List.length icons.
Proof.
  rewrite (Permutation_length (sorted_perm (keys icons))).
  apply length_map.
Qed.

(** X12: without [--clobber], an output file that exists is never touched:
    [main] raises [OSError] at once, before it reads, requests or prints
    anything, and without any call that changes the file system. *)
Theorem main_io_no_overwrite {fs : Type} (os : OS fs) (env : Env)
    (args : Args) (w : World fs) :
  os_exists os (disk w) (outfile args) = true -> clobber args = false ->
  main_io os env args w
  = (inl (OSError ("File already exists: " ++ outfile args)), w).
Proof.
  intros Hex Hc. io_run. rewrite Hex, Hc. reflexivity.
Qed.

Lemma main_io_no_overwrite_witness :
  os_exists files_os (disk sample_world) "fontawesome5.sty" = true
  /\ main_io files_os sample_env
       (mkArgs false (Some "icons.yml") "fontawesome5.sty") sample_world
     = (inl (OSError "File already exists: fontawesome5.sty"), sample_world).
Proof.
  split; [reflexivity|].
  apply (main_io_no_overwrite files_os sample_env
           (mkArgs false (Some "icons.yml") "fontawesome5.sty")
           sample_world); reflexivity.
Defined.

(** X17: the template and the dictionary [data] of [main] name the same
    keys: formatting never raises, whatever the six values are, and with
    any one entry of [data] left out it raises [KeyError] for that key. *)
Theorem sty_template_keys (env : Env) (d : Data) :
  (exists text : string,
      Format.format STY_TEMPLATE (data_dict env d) = Ok text)
  /\ forall key : string,
       In key (keys (data_dict env d)) ->
       Format.format STY_TEMPLATE
         (filter (fun kv => negb (String.eqb (fst kv) key)) (data_dict env d))
       = Raise (KeyError key).
Proof.
  split; [eexists; apply sty_format|].
  intros key Hkey. cbn in Hkey.
  destruct Hkey as [<- | [<- | [<- | [<- | [<- | [<- | []]]]]]];
    vm_compute; reflexivity.
Qed.


(** X13: [main] succeeds when every step it depends on does: the output
    path is free, or it is taken, [--clobber] is given and the removal goes
    through; the input file can be read after that, or there is none and
    the request to [ICONS_URL] is answered; the loader accepts the text;
    the output path can be opened for writing and the write returns.  What
    it writes is the formatted template for the loaded icons; it makes no
    request with an input file and one without; the file system is left as
    the write left it. *)
Theorem main_io_success {fs : Type} (os : OS fs) (env : Env) (args : Args)
    (w : World fs) (s1 s2 s3 : fs) (text : string) (icons : dict Icon)
    (d : Data) :
  (os_exists os (disk w) (outfile args) = false /\ s1 = disk w)
  \/ (os_exists os (disk w) (outfile args) = true /\ clobber args = true
      /\ os_remove os (disk w) (outfile args) = Some s1) ->
  (exists path, infile args = Some path /\ path <> ""
                /\ os_read os s1 path = Some text)
  \/ (given (infile args) = false /\ urlopen env ICONS_URL = Some text) ->
  safe_load env text = Some icons ->
  main icons = Ok d ->
  os_open_w os s1 (outfile args) = Some s2 ->
  os_write os s2 (outfile args) (sty env d) = (s3, true) ->
  Format.format STY_TEMPLATE (data_dict env d) = Ok (sty env d)
  /\ main_io os env args w
     = (inr tt,
        mkWorld s3 (stdout w ++ printed os args w icons)%list
          (requests w
             ++ (if given (infile args) then [] else [ICONS_URL]))%list).
Proof.
  intros Hcheck Hinput Hload Hd Hopen Hwrite.
  split; [apply sty_format|].
  unfold printed.
  destruct Hcheck as [[Hex ->] | [Hex [Hc Hrm]]];
    destruct Hinput as [[path [Hin [Hp Hread]]] | [Hgiven Hurl]].
  - io_run. rewrite Hex, Hin, (given_path path Hp).
    io_run. rewrite Hread. io_run. rewrite Hload. io_run. rewrite Hd.
    io_run. rewrite Hopen. io_run. rewrite sty_format. io_run.
    rewrite Hwrite. io_run.
    rewrite icon_count, app_nil_r, <- !app_assoc. reflexivity.
  - io_run. rewrite Hex, Hgiven.
    destruct (infile args); io_run; rewrite Hurl; io_run; rewrite Hload;
      io_run; rewrite Hd; io_run; rewrite Hopen; io_run;
      rewrite sty_format; io_run; rewrite Hwrite; io_run;
      rewrite icon_count, <- !app_assoc; reflexivity.
  - io_run. rewrite Hex, Hc, Hin, (given_path path Hp).
    io_run. rewrite Hrm. io_run. rewrite Hread. io_run. rewrite Hload.
    io_run. rewrite Hd. io_run. rewrite Hopen. io_run. rewrite sty_format.
    io_run. rewrite Hwrite. io_run.
    rewrite icon_count, app_nil_r, <- !app_assoc. reflexivity.
  - io_run. rewrite Hex, Hc, Hgiven.
    destruct (infile args); io_run; rewrite Hrm; io_run; rewrite Hurl;
      io_run; rewrite Hload; io_run; rewrite Hd; io_run; rewrite Hopen;
      io_run; rewrite sty_format; io_run; rewrite Hwrite; io_run;
      rewrite icon_count, <- !app_assoc; reflexivity.
Qed.

Lemma main_io_success_witness :
  exists w' : World files,
    main_io files_os sample_env
      (mkArgs true (Some "icons.yml") "fontawesome5.sty") sample_world
    = (inr tt, w')
    /\ (exists d : Data,
           main sample = Ok d
           /\ disk w' "fontawesome5.sty" = Some (sty sample_env d))
    /\ disk w' "icons.yml" = Some "icons"
    /\ requests w' = [].
Proof.
  pose proof (main_ok sample) as Hd.
  set (d := data_of _) in Hd.
  set (args := mkArgs true (Some "icons.yml") "fontawesome5.sty").
  set (s1 := update sample_files "fontawesome5.sty" None).
  set (s2 := update s1 "fontawesome5.sty" (Some "")).
  set (s3 := update s2 "fontawesome5.sty" (Some (sty sample_env d))).
  destruct (main_io_success files_os sample_env args sample_world
              s1 s2 s3 "icons" sample d) as [_ Hrun].
  - right. repeat split; reflexivity.
  - left. exists "icons.yml".
    split; [reflexivity | split; [discriminate | reflexivity]].
  - reflexivity.
  - exact Hd.
  - reflexivity.
  - reflexivity.
  - eexists. split; [exact Hrun|].
    cbn [disk requests]. split; [|split; reflexivity].
    exists d. split; [exact Hd | reflexivity].
Defined.

(** X14: with no input file (none given, or the empty path), [main] makes
    exactly one request, to [ICONS_URL], when the check of the output path
    passes, whatever happens after the request; when the check does not
    pass (the path is taken and [--clobber] is not given, or the removal
    fails) it makes none. *)
Theorem main_io_download {fs : Type} (os : OS fs) (env : Env) (args : Args)
    (w : World fs) :
  given (infile args) = false ->
  requests (snd (main_io os env args w))
  = (if passes_check os args (disk w)
     then requests w ++ [ICONS_URL] else requests w)%list
  /\ ICONS_URL
     = "https://github.com/FortAwesome/Font-Awesome/raw/master/metadata/icons.yml".
Proof.
  intros Hgiven. split; [|reflexivity].
  unfold passes_check. io_run. rewrite Hgiven.
  io_cases; cbn [snd requests negb orb andb];
    reflexivity || (exfalso; congruence).
Qed.

Lemma main_io_download_witness :
  given (Some "") = false
  /\ requests (snd (main_io files_os sample_env
                      (mkArgs false (Some "") "out.sty") sample_world))
     = [ICONS_URL]
  /\ requests (snd (main_io files_os sample_env
                      (mkArgs false None "fontawesome5.sty") sample_world))
     = [].
Proof.
  split; [reflexivity|]. split.
  - apply (proj1 (main_io_download files_os sample_env
                    (mkArgs false (Some "") "out.sty") sample_world
                    eq_refl)).
  - apply (proj1 (main_io_download files_os sample_env
                    (mkArgs false None "fontawesome5.sty") sample_world
                    eq_refl)).
Defined.

(** X15: when [main] fails at any step other than the write itself, the
    file system is as the check of the output path left it, and nothing
    has been written: unchanged when the path was free, was protected by
    the missing [--clobber], or could not be removed; with the old output
    removed, and not put back, when [--clobber] removed it and reading,
    requesting, loading or opening then failed. *)
Theorem main_io_failure {fs : Type} (os : OS fs) (env : Env) (args : Args)
    (w w' : World fs) (e : error) :
  main_io os env args w = (inl e, w') ->
  (forall p, e <> WriteError p) ->
  disk w' = after_check os args (disk w).
Proof.
  unfold after_check.
  io_cases;
    (intros [= <- <-] Hnw || (intros H; discriminate H));
    cbn [disk andb];
    try reflexivity; try congruence;
    exfalso; eapply Hnw; reflexivity.
Qed.

Lemma main_io_failure_witness :
  exists w' : World files,
    main_io files_os sample_env
      (mkArgs true (Some "missing.yml") "fontawesome5.sty") sample_world
    = (inl (OpenError "missing.yml"), w')
    /\ disk sample_world "fontawesome5.sty" = Some "old"
    /\ disk w' = update sample_files "fontawesome5.sty" None
    /\ disk w' "fontawesome5.sty" = None.
Proof.
  eexists. split; [reflexivity|]. split; [reflexivity|].
  split; [|reflexivity].
  apply (main_io_failure files_os sample_env
           (mkArgs true (Some "missing.yml") "fontawesome5.sty")
           sample_world _ (OpenError "missing.yml") eq_refl).
  intros p. discriminate.
Defined.

(** X16: with an input file given, [main] makes no request, whether it
    succeeds or fails. *)
Theorem main_io_no_request {fs : Type} (os : OS fs) (env : Env)
    (args : Args) (w : World fs) :
  given (infile args) = true ->
  requests (snd (main_io os env args w)) = requests w.
Proof.
  intros Hgiven. revert Hgiven.
  destruct (infile args) as [path|] eqn:Hin; [|discriminate].
  intros Hgiven. io_run. rewrite Hin, Hgiven.
  io_cases; reflexivity.
Qed.

Lemma main_io_no_request_witness :
  given (Some "icons.yml") = true
  /\ requests (snd (main_io files_os sample_env
                      (mkArgs true (Some "icons.yml") "fontawesome5.sty")
                      sample_world))
     = [].
Proof.
  split; [reflexivity|].
  apply (main_io_no_request files_os sample_env
           (mkArgs true (Some "icons.yml") "fontawesome5.sty") sample_world).
  reflexivity.
Defined.
